(** * Cloud Raiders: the generic resource controller

    A shallow embedding of [server/app/base.py] (class [BaseDB]) and of the
    authorization gate of [server/app/security.py], with the properties of
    the design document stated against it.

    Conventions of the embedding.
    - A Python call either returns a value or raises: [result].
    - Code that mutates state (the per-class filter cache, the router, the
      database session) is a function from the state to a result and the
      state it leaves behind: [M].
    - A model instance, a [model_dump()] and a table row are all
      insertion-ordered dictionaries from field names to values: [Dict]. *)

From Stdlib Require Import List String Ascii ZArith Bool Lia.
Import ListNotations.
Open Scope string_scope.
Open Scope list_scope.

(* ================================================================= *)
(** ** Python values and dictionaries *)

Inductive Value : Type :=
| VNone
| VInt (z : Z)
| VStr (s : string)
| VBool (b : bool).

Definition value_eqb (a b : Value) : bool :=
  match a, b with
  | VNone, VNone => true
  | VInt x, VInt y => Z.eqb x y
  | VStr x, VStr y => String.eqb x y
  | VBool x, VBool y => Bool.eqb x y
  | _, _ => false
  end.

Fixpoint tuple_eqb (a b : list Value) : bool :=
  match a, b with
  | [], [] => true
  | x :: a', y :: b' => value_eqb x y && tuple_eqb a' b'
  | _, _ => false
  end.

Definition Dict : Type := list (string * Value).

Fixpoint dict_get (d : Dict) (k : string) : option Value :=
  match d with
  | [] => None
  | (k', v) :: d' => if String.eqb k k' then Some v else dict_get d' k
  end.

(** [d[k] = v]: an existing key keeps its position, a new key goes last. *)
Fixpoint dict_set (d : Dict) (k : string) (v : Value) : Dict :=
  match d with
  | [] => [(k, v)]
  | (k', v') :: d' =>
      if String.eqb k k' then (k, v) :: d' else (k', v') :: dict_set d' k v
  end.

Definition str_mem (s : string) (l : list string) : bool :=
  existsb (String.eqb s) l.

(** Truth value of a [str]: the empty string is false. *)
Definition str_truthy (s : string) : bool :=
  match s with
  | EmptyString => false
  | String _ _ => true
  end.

(** Truth value of an [Optional[str]]. *)
Definition opt_str_truthy (o : option string) : bool :=
  match o with
  | None => false
  | Some s => str_truthy s
  end.

(** [sep.join(l)]. *)
Fixpoint join (sep : string) (l : list string) : string :=
  match l with
  | [] => EmptyString
  | [x] => x
  | x :: rest => String.append x (String.append sep (join sep rest))
  end.

(** [pat in s] on strings. *)
Fixpoint str_contains (pat s : string) : bool :=
  String.prefix pat s ||
  match s with
  | EmptyString => false
  | String _ s' => str_contains pat s'
  end.

Definition lower_ascii (c : ascii) : ascii :=
  let n := nat_of_ascii c in
  if (Nat.leb 65 n && Nat.leb n 90)%bool then ascii_of_nat (n + 32) else c.

(** SQL [lower()] on ASCII text. *)
Fixpoint lower (s : string) : string :=
  match s with
  | EmptyString => EmptyString
  | String c s' => String (lower_ascii c) (lower s')
  end.

(* ================================================================= *)
(** ** Exceptions and the two monads *)

Inductive Detail : Type :=
| DetailText (s : string)
| DetailNotFound (cls_name : string) (id : list Value)
| DetailExists (id : list Value).

Inductive PyExc : Type :=
| HTTPException (status_code : Z) (detail : Detail) (headers : option string)
| TypeError
| AttributeError
| KeyError
| RuntimeError
| ValidationError
| IntegrityError
| DBAPIError.

Definition HTTP_201_CREATED : Z := 201.
Definition HTTP_204_NO_CONTENT : Z := 204.
Definition HTTP_400_BAD_REQUEST : Z := 400.
Definition HTTP_401_UNAUTHORIZED : Z := 401.
Definition HTTP_404_NOT_FOUND : Z := 404.
Definition HTTP_422_UNPROCESSABLE_ENTITY : Z := 422.

Inductive result (A : Type) : Type :=
| Ok (a : A)
| Raise (e : PyExc).

Arguments Ok {A} a.
Arguments Raise {A} e.

Definition rbind {A B : Type} (r : result A) (k : A -> result B) : result B :=
  match r with
  | Ok a => k a
  | Raise e => Raise e
  end.

Definition M (S A : Type) : Type := S -> result A * S.

Definition ret {S A : Type} (a : A) : M S A := fun s => (Ok a, s).

Definition raise {S A : Type} (e : PyExc) : M S A := fun s => (Raise e, s).

Definition bind {S A B : Type} (m : M S A) (k : A -> M S B) : M S B :=
  fun s =>
    match m s with
    | (Ok a, s') => k a s'
    | (Raise e, s') => (Raise e, s')
    end.

Definition get_state {S : Type} : M S S := fun s => (Ok s, s).

Definition put_state {S : Type} (s : S) : M S unit := fun _ => (Ok tt, s).

Definition lift {S A : Type} (r : result A) : M S A := fun s => (r, s).

Declare Scope py_scope.
Delimit Scope py_scope with py.

Notation "x <- m ;; k" := (bind m (fun x => k))
  (at level 61, m at next level, right associativity) : py_scope.
Notation "m ;;; k" := (bind m (fun _ => k))
  (at level 61, right associativity) : py_scope.
Notation "'try!' x <- r ;; k" := (rbind r (fun x => k))
  (at level 61, x name, r at next level, right associativity) : py_scope.

Open Scope py_scope.

Fixpoint map_result {A B : Type} (f : A -> result B) (l : list A)
  : result (list B) :=
  match l with
  | [] => Ok []
  | x :: rest =>
      try! y <- f x ;;
      try! ys <- map_result f rest ;;
      Ok (y :: ys)
  end.

(* ================================================================= *)
(** ** Model classes as the controller sees them *)

(** Field annotations.  [AnnOptionalStr] stands for [Optional[str]] and
    for [str | None], which compare equal. *)
Inductive Annotation : Type :=
| AnnStr
| AnnOptionalStr
| AnnOther (repr : string).

(** One class of an [__mro__].  [ns_annotations] is [None] when the class
    has no [__annotations__] attribute, as is the case for [object]. *)
Record Namespace : Type := {
  ns_name : string;
  ns_annotations : option (list (string * Annotation))
}.

(** One entry of [dir(cls)] with the result of [callable(getattr(cls, _))]. *)
Record Attr : Type := {
  attr_name : string;
  attr_callable : bool
}.

Inductive PyType : Type :=
| py_int
| py_str.

(** A column type: [python_type] ([None] when the type raises
    [NotImplementedError]) and its [str()]. *)
Record SqlType : Type := {
  ty_python_type : option PyType;
  ty_str : string
}.

Record Column : Type := {
  c_name : string;
  c_type : SqlType;
  c_primary_key : bool
}.

(** A pydantic class used as a projection: its name and its fields, each
    with its declared default if it has one. *)
Record Projection : Type := {
  proj_name : string;
  proj_fields : list (string * option Value)
}.

Record ModelClass : Type := {
  cls_name : string;
  cls_dir : list Attr;
  cls_mro : list Namespace;
  cls_table : list Column;
  cls_fields : list (string * option Value);
  cls_read_class : Projection;
  cls_create_class : option Projection;
  cls_update_class : option Projection;
  cls_validate : Dict -> bool * string
}.

(** [BaseRead] itself: the default [__read_class__]. *)
Definition BaseRead : Projection :=
  {| proj_name := "BaseRead"; proj_fields := [] |}.

(** [BaseDB.validate]. *)
Definition base_validate (self : Dict) : bool * string := (true, EmptyString).

(* ================================================================= *)
(** ** Reflection and field discovery *)

Definition _class_vars (cls : ModelClass) : list string :=
  map attr_name
    (filter
       (fun field =>
          negb (String.prefix "_" (attr_name field))
          && negb (attr_callable field)
          && negb (String.prefix "model" (attr_name field))
          && negb (String.eqb (attr_name field) "metadata"))
       (cls_dir cls)).

(** [cls_annotation in [str, Optional[str]]]. *)
Definition in_str_annotations (a : Annotation) : bool :=
  match a with
  | AnnStr | AnnOptionalStr => true
  | AnnOther _ => false
  end.

Fixpoint annotations_get (annotations : list (string * Annotation))
  (k : string) : option Annotation :=
  match annotations with
  | [] => None
  | (k', a) :: rest => if String.eqb k k' then Some a else annotations_get rest k
  end.

(** The inner loop of [_get_default_filters], over [cls.__mro__].
    - [getattr(clazz, "__annotations__", [])] falls back to a list, and a
      list has no [get]: [AttributeError].
    - [defaults.append[cls_attr]] subscripts the bound method:
      [TypeError]; [defaults] is never extended. *)
Fixpoint scan_mro (mro : list Namespace) (cls_attr : string)
  (defaults : list string) : result (list string) :=
  match mro with
  | [] => Ok defaults
  | clazz :: rest =>
      match ns_annotations clazz with
      | None => Raise AttributeError
      | Some annotations =>
          match annotations_get annotations cls_attr with
          | None => scan_mro rest cls_attr defaults
          | Some cls_annotation =>
              if in_str_annotations cls_annotation
              then Raise TypeError
              else scan_mro rest cls_attr defaults
          end
      end
  end.

(** The outer loop, over [cls._class_vars()]. *)
Fixpoint scan_class_vars (mro : list Namespace) (class_vars : list string)
  (defaults : list string) : result (list string) :=
  match class_vars with
  | [] => Ok defaults
  | cls_attr :: rest =>
      try! defaults' <- scan_mro mro cls_attr defaults ;;
      scan_class_vars mro rest defaults'
  end.

(** The state is [cls.__default_filters__], set to [[]] by
    [__init_subclass__]. *)
Definition _get_default_filters (cls : ModelClass) : M (list string) (list string) :=
  cached <- get_state ;;
  match cached with
  | _ :: _ => ret cached
  | [] =>
      defaults <- lift (scan_class_vars (cls_mro cls) (_class_vars cls) []) ;;
      put_state defaults ;;;
      ret defaults
  end.

(** What the design document asks of discovery: the class vars whose
    annotation, looked up along the MRO, is [str] or [Optional[str]]. *)
Fixpoint spec_annotation (mro : list Namespace) (k : string) : option Annotation :=
  match mro with
  | [] => None
  | clazz :: rest =>
      match ns_annotations clazz with
      | Some annotations =>
          match annotations_get annotations k with
          | Some a => Some a
          | None => spec_annotation rest k
          end
      | None => spec_annotation rest k
      end
  end.

Definition spec_default_filters (cls : ModelClass) : list string :=
  filter
    (fun k =>
       match spec_annotation (cls_mro cls) k with
       | Some a => in_str_annotations a
       | None => false
       end)
    (_class_vars cls).

(* ================================================================= *)
(** ** The example model

    [Player] of [models.py] and of the scenario of the design document
    ([id] integer primary key, [username] string), declared as a table and
    with its three projections. *)

Definition INTEGER : SqlType := {| ty_python_type := Some py_int; ty_str := "INTEGER" |}.
Definition VARCHAR : SqlType := {| ty_python_type := Some py_str; ty_str := "VARCHAR" |}.

Definition object_ns : Namespace :=
  {| ns_name := "object"; ns_annotations := None |}.

Definition PlayerRead : Projection :=
  {| proj_name := "PlayerRead";
     proj_fields := [("id", None); ("username", None)] |}.

Definition PlayerCreate : Projection :=
  {| proj_name := "PlayerCreate"; proj_fields := [("username", None)] |}.

Definition PlayerUpdate : Projection :=
  {| proj_name := "PlayerUpdate"; proj_fields := [("username", None)] |}.

(** [dir(Player)], abridged to one attribute of each kind the filter of
    [_class_vars] tells apart. *)
Definition Player : ModelClass :=
  {| cls_name := "Player";
     cls_dir :=
       [ {| attr_name := "__table__"; attr_callable := false |};
         {| attr_name := "_class_vars"; attr_callable := true |};
         {| attr_name := "id"; attr_callable := false |};
         {| attr_name := "metadata"; attr_callable := false |};
         {| attr_name := "model_config"; attr_callable := false |};
         {| attr_name := "model_fields"; attr_callable := false |};
         {| attr_name := "to_db"; attr_callable := true |};
         {| attr_name := "username"; attr_callable := false |};
         {| attr_name := "validate"; attr_callable := true |} ];
     cls_mro :=
       [ {| ns_name := "Player";
            ns_annotations :=
              Some [("id", AnnOther "int | None"); ("username", AnnStr)] |};
         {| ns_name := "BaseDB"; ns_annotations := Some [] |};
         {| ns_name := "SQLModel"; ns_annotations := Some [] |};
         {| ns_name := "BaseModel"; ns_annotations := Some [] |};
         object_ns ];
     cls_table :=
       [ {| c_name := "id"; c_type := INTEGER; c_primary_key := true |};
         {| c_name := "username"; c_type := VARCHAR; c_primary_key := false |} ];
     cls_fields := [("id", None); ("username", None)];
     cls_read_class := PlayerRead;
     cls_create_class := Some PlayerCreate;
     cls_update_class := Some PlayerUpdate;
     cls_validate := base_validate |}.

(* ================================================================= *)
(** ** Query builder

    A [select(cls)] statement is the record of the clauses attached to it;
    the order in which [where], [offset], [limit] and [order_by] are called
    does not matter, the statement is rendered as
    [SELECT .. WHERE .. ORDER BY .. LIMIT .. OFFSET ..]. *)

Inductive Direction : Type :=
| asc
| desc.

(** [func.lower(col(c)).contains(pattern)]. *)
Inductive Criterion : Type :=
| LowerContains (column : string) (pattern : string).

Record Query : Type := {
  q_where : list (list Criterion);
  q_offset : option Z;
  q_limit : option Z;
  q_order_by : option (string * Direction)
}.

(** [select(cls)]. *)
Definition select : Query :=
  {| q_where := []; q_offset := None; q_limit := None; q_order_by := None |}.

(** [query.where(or_( *or_args ))]. *)
Definition where_or (q : Query) (or_args : list Criterion) : Query :=
  {| q_where := q_where q ++ [or_args];
     q_offset := q_offset q;
     q_limit := q_limit q;
     q_order_by := q_order_by q |}.

Definition offset_ (q : Query) (n : Z) : Query :=
  {| q_where := q_where q;
     q_offset := Some n;
     q_limit := q_limit q;
     q_order_by := q_order_by q |}.

Definition limit_ (q : Query) (n : Z) : Query :=
  {| q_where := q_where q;
     q_offset := q_offset q;
     q_limit := Some n;
     q_order_by := q_order_by q |}.

Definition order_by (q : Query) (column : string) (d : Direction) : Query :=
  {| q_where := q_where q;
     q_offset := q_offset q;
     q_limit := q_limit q;
     q_order_by := Some (column, d) |}.

(** The rows of the table of the model: what the session sees. *)
Definition Session : Type := list Dict.

Definition ascii_eqb_nocase (a b : ascii) : bool :=
  Ascii.eqb (lower_ascii a) (lower_ascii b).

(** [s LIKE pattern] as SQLite evaluates it: [%] matches any run of
    characters, [_] any one character, and ASCII letters match whatever
    their case. *)
Fixpoint like (pattern : string) : string -> bool :=
  match pattern with
  | EmptyString =>
      fun s => match s with
               | EmptyString => true
               | String _ _ => false
               end
  | String c pattern' =>
      if Ascii.eqb c "%"%char then
        fix any (s : string) : bool :=
          like pattern' s
          || match s with
             | EmptyString => false
             | String _ s' => any s'
             end
      else if Ascii.eqb c "_"%char then
        fun s => match s with
                 | EmptyString => false
                 | String _ s' => like pattern' s'
                 end
      else
        fun s => match s with
                 | EmptyString => false
                 | String d s' => ascii_eqb_nocase c d && like pattern' s'
                 end
  end.

(** One criterion on one row.  [contains] renders
    [lower(column) LIKE '%' || pattern || '%'], with the wildcards of the
    pattern left as they are; a [NULL] or non-text column never matches. *)
Definition eval_criterion (row : Dict) (c : Criterion) : bool :=
  match c with
  | LowerContains column pattern =>
      match dict_get row column with
      | Some (VStr s) =>
          like (String.append "%" (String.append pattern "%")) (lower s)
      | _ => false
      end
  end.

(** An [or_] without arguments renders no condition. *)
Definition eval_or (row : Dict) (or_args : list Criterion) : bool :=
  match or_args with
  | [] => true
  | _ :: _ => existsb (eval_criterion row) or_args
  end.

Definition eval_where (clauses : list (list Criterion)) (row : Dict) : bool :=
  forallb (eval_or row) clauses.

(** Ordering of column values: [NULL] first, then by value. *)
Definition value_leb (a b : Value) : bool :=
  match a, b with
  | VNone, _ => true
  | _, VNone => false
  | VBool x, VBool y => implb x y
  | VBool _, _ => true
  | _, VBool _ => false
  | VInt x, VInt y => Z.leb x y
  | VInt _, _ => true
  | _, VInt _ => false
  | VStr x, VStr y => String.leb x y
  end.

Definition column_value (row : Dict) (column : string) : Value :=
  match dict_get row column with
  | Some v => v
  | None => VNone
  end.

Definition row_leb (column : string) (d : Direction) (r1 r2 : Dict) : bool :=
  match d with
  | asc => value_leb (column_value r1 column) (column_value r2 column)
  | desc => value_leb (column_value r2 column) (column_value r1 column)
  end.

Fixpoint insert_sorted (leb : Dict -> Dict -> bool) (r : Dict) (rows : list Dict)
  : list Dict :=
  match rows with
  | [] => [r]
  | r' :: rest => if leb r r' then r :: rows else r' :: insert_sorted leb r rest
  end.

Definition sort_rows (leb : Dict -> Dict -> bool) (rows : list Dict) : list Dict :=
  fold_right (insert_sorted leb) [] rows.

Definition apply_order (o : option (string * Direction)) (rows : list Dict)
  : list Dict :=
  match o with
  | None => rows
  | Some (column, d) => sort_rows (row_leb column d) rows
  end.

(** [OFFSET n] and [LIMIT n] as SQLite reads them: a negative offset skips
    nothing and a negative limit bounds nothing. *)
Definition apply_offset (o : option Z) (rows : list Dict) : list Dict :=
  match o with
  | Some n => skipn (Z.to_nat n) rows
  | None => rows
  end.

Definition apply_limit (o : option Z) (rows : list Dict) : list Dict :=
  match o with
  | Some n => if Z.ltb n 0 then rows else firstn (Z.to_nat n) rows
  | None => rows
  end.

(** [session.exec(query).all()]. *)
Definition session_exec (session : Session) (q : Query) : result (list Dict) :=
  Ok (apply_limit (q_limit q)
        (apply_offset (q_offset q)
           (apply_order (q_order_by q)
              (filter (eval_where (q_where q)) session)))).

(** [session.exec(select(func.count()).select_from(query.subquery())).one()]. *)
Definition session_count (session : Session) (q : Query) : result Z :=
  try! rows <- session_exec session q ;;
  Ok (Z.of_nat (List.length rows)).

(** [BaseDB.apply_filter]; the state is the filter cache of the class. *)
Definition apply_filter (cls : ModelClass) (query : Query) (filter : string)
  : M (list string) Query :=
  default_filters <- _get_default_filters cls ;;
  ret (where_or query
         (map (fun or_arg => LowerContains or_arg filter) default_filters)).

(** A pydantic class built from keyword arguments: a field takes the
    argument of its name, else its default; a field with neither fails
    validation.  Arguments that name no field are ignored. *)
Fixpoint pydantic_init (fields : list (string * option Value)) (kwargs : Dict)
  : result Dict :=
  match fields with
  | [] => Ok []
  | (name, default) :: rest =>
      try! v <- match dict_get kwargs name with
                | Some v => Ok v
                | None =>
                    match default with
                    | Some d => Ok d
                    | None => Raise ValidationError
                    end
                end ;;
      try! others <- pydantic_init rest kwargs ;;
      Ok ((name, v) :: others)
  end.

(** [BaseRead.from_db], as a class method of [read_class]:
    [cls( **obj.model_dump() )]. *)
Definition from_db (read_class : Projection) (obj : Dict) : result Dict :=
  pydantic_init (proj_fields read_class) obj.

Record PaginatedResponse : Type := {
  total : Z;
  data : list Dict
}.

Definition has_attr (cls : ModelClass) (name : string) : bool :=
  existsb (fun a => String.eqb name (attr_name a)) (cls_dir cls).

Definition is_column (cls : ModelClass) (name : string) : bool :=
  existsb (fun c => String.eqb name (c_name c)) (cls_table cls).

(** [getattr(col(getattr(cls, sort)), direction)()]: [getattr] raises
    [AttributeError] on an unknown name and [col] raises [RuntimeError] on
    an attribute that is not a column. *)
Definition sort_expression (cls : ModelClass) (sort : string) (direction : Direction)
  : result (string * Direction) :=
  if is_column cls sort then Ok (sort, direction)
  else if has_attr cls sort then Raise RuntimeError
  else Raise AttributeError.

Definition _base_read_list_object (cls : ModelClass) (session : Session)
  (offset limit : Z) (sort : option string) (direction : Direction)
  (filter : option string) (read_class : Projection)
  : M (list string) PaginatedResponse :=
  let query := select in
  query <- (match filter with
            | Some f => if str_truthy f then apply_filter cls query f else ret query
            | None => ret query
            end) ;;
  let query := limit_ (offset_ query offset) limit in
  query <- (match sort with
            | Some s =>
                if str_truthy s
                then lift (try! o <- sort_expression cls s direction ;;
                           Ok (order_by query (fst o) (snd o)))
                else ret query
            | None => ret query
            end) ;;
  count <- lift (session_count session query) ;;
  objects <- lift (session_exec session query) ;;
  objects <- lift (map_result (from_db read_class) objects) ;;
  ret {| total := count; data := objects |}.

(** What the design document asks of the list operation.  The filter
    predicate: some default-filter field contains the text, whatever the
    case of either. *)
Definition spec_matches (filters : list string) (filter : string) (row : Dict) : bool :=
  existsb
    (fun f =>
       match dict_get row f with
       | Some (VStr s) => str_contains (lower filter) (lower s)
       | _ => false
       end)
    filters.

Definition spec_filtered (cls : ModelClass) (session : Session)
  (filter : option string) : list Dict :=
  match filter with
  | Some f =>
      if str_truthy f
      then List.filter (spec_matches (spec_default_filters cls) f) session
      else session
  | None => session
  end.

(** [countMatching(filterText)]. *)
Definition spec_count (cls : ModelClass) (session : Session)
  (filter : option string) : Z :=
  Z.of_nat (List.length (spec_filtered cls session filter)).

Definition player (id : Z) (username : string) : Dict :=
  [("id", VInt id); ("username", VStr username)].

Definition three_players : Session :=
  [player 1 "alice"; player 2 "bob"; player 3 "carol"].

(* ================================================================= *)
(** ** Generated signatures *)

Inductive ParamKind : Type :=
| KEYWORD_ONLY
| VAR_KEYWORD.

Inductive SigAnnotation : Type :=
| AnnotationEmpty
| AnnotationNone
| AnnotationType (t : PyType)
| AnnotationClass (name : string).

(** [inspect.Parameter]. *)
Record Param : Type := {
  p_name : string;
  p_kind : ParamKind;
  p_annotation : SigAnnotation
}.

(** [Signature.parameters]: an ordered mapping, keyed by [p_name]. *)
Definition Params : Type := list Param.

(** [modified_sig.pop(name)]: [KeyError] when the key is absent. *)
Fixpoint params_pop (params : Params) (name : string) : result Params :=
  match params with
  | [] => Raise KeyError
  | p :: rest =>
      if String.eqb name (p_name p) then Ok rest
      else try! rest' <- params_pop rest name ;; Ok (p :: rest')
  end.

(** [modified_sig[name] = p]. *)
Fixpoint params_set (params : Params) (name : string) (p : Param)
  : Params :=
  match params with
  | [] => [p]
  | p' :: rest =>
      if String.eqb name (p_name p') then p :: rest
      else p' :: params_set rest name p
  end.

(** [cls.__table__.primary_key], in declaration order. *)
Definition primary_key (cls : ModelClass) : list Column :=
  filter c_primary_key (cls_table cls).

(** [cls.__table__.c.get(name)]. *)
Definition table_column (cls : ModelClass) (name : string) : option Column :=
  find (fun c => String.eqb name (c_name c)) (cls_table cls).

Definition TYPE_MAP : list (string * PyType) :=
  [("VARCHAR", py_str); ("INTEGER", py_int)].

Fixpoint type_map_get (m : list (string * PyType)) (k : string) : option PyType :=
  match m with
  | [] => None
  | (k', t) :: rest => if String.eqb k k' then Some t else type_map_get rest k
  end.

(** The [try .. except NotImplementedError] of the first loop. *)
Definition column_python_type (column : Column) : option PyType :=
  match ty_python_type (c_type column) with
  | Some t => Some t
  | None => type_map_get TYPE_MAP (ty_str (c_type column))
  end.

(** First loop of [_create_id_signature]: [sig_type_map]. *)
Fixpoint build_sig_type_map (cls : ModelClass) (keys : list Column)
  (sig_type_map : list (string * option PyType))
  : result (list (string * option PyType)) :=
  match keys with
  | [] => Ok sig_type_map
  | key :: rest =>
      match table_column cls (c_name key) with
      | None => Raise AttributeError
      | Some column =>
          build_sig_type_map cls rest
            (sig_type_map ++ [(c_name key, column_python_type column)])
      end
  end.

Fixpoint sig_type_map_get (m : list (string * option PyType)) (k : string)
  : result (option PyType) :=
  match m with
  | [] => Raise KeyError
  | (k', t) :: rest => if String.eqb k k' then Ok t else sig_type_map_get rest k
  end.

Definition annotation_of (t : option PyType) : SigAnnotation :=
  match t with
  | Some t => AnnotationType t
  | None => AnnotationNone
  end.

(** Second loop: one keyword-only parameter per primary-key column. *)
Fixpoint add_key_parameters (keys : list Column)
  (sig_type_map : list (string * option PyType)) (modified_sig : Params)
  : result Params :=
  match keys with
  | [] => Ok modified_sig
  | key :: rest =>
      try! sig_type <- sig_type_map_get sig_type_map (c_name key) ;;
      add_key_parameters rest sig_type_map
        (params_set modified_sig (c_name key)
           {| p_name := c_name key;
              p_kind := KEYWORD_ONLY;
              p_annotation := annotation_of sig_type |})
  end.

(** What is handed to [Signature(..)]: a list of parameters, or the
    generic alias [list[..]] that subscripting the type [list] makes. *)
Inductive SignatureArg : Type :=
| ParameterList (l : list Param)
| ListAlias (args : list Param).

(** [Signature(parameters)].  The constructor iterates over its argument
    and reads [kind] of every item; the one item a generic alias yields
    has no such attribute. *)
Definition Signature_new (parameters : SignatureArg) : result Params :=
  match parameters with
  | ParameterList l => Ok l
  | ListAlias _ => Raise AttributeError
  end.

(** The parameters assembled by [_create_id_signature] before its last
    line. *)
Definition modified_parameters (cls : ModelClass) (old_sig : Params)
  : result Params :=
  try! modified_sig <- params_pop old_sig "kwargs" ;;
  try! sig_type_map <- build_sig_type_map cls (primary_key cls) [] ;;
  add_key_parameters (primary_key cls) sig_type_map modified_sig.

Definition _create_id_signature (cls : ModelClass) (old_sig : Params)
  : result Params :=
  try! modified_sig <- modified_parameters cls old_sig ;;
  Signature_new (ListAlias modified_sig).

(** ["/{" + "}/{".join(names) + "}"]. *)
Definition _as_id_endpoint (cls : ModelClass) : string :=
  String.append "/{"
    (String.append (join "}/{" (map c_name (primary_key cls))) "}").

(* ================================================================= *)
(** ** Route registration *)

Record Endpoint : Type := {
  ep_name : string;
  ep_scopes : list string;
  ep_signature : Params
}.

Definition kw (name : string) (a : SigAnnotation) : Param :=
  {| p_name := name; p_kind := KEYWORD_ONLY; p_annotation := a |}.

Definition var_kw : Param :=
  {| p_name := "kwargs"; p_kind := VAR_KEYWORD; p_annotation := AnnotationEmpty |}.

Definition _read_single_object_wrapper (cls : ModelClass) (scopes : list string)
  (read_class : Projection) : result Endpoint :=
  let sig := [kw "current_user" AnnotationEmpty;
              kw "session" (AnnotationClass "Session"); var_kw] in
  try! new_sig <- _create_id_signature cls sig ;;
  Ok {| ep_name := "read_single_object"; ep_scopes := scopes;
        ep_signature := new_sig |}.

Definition _read_list_object_wrapper (cls : ModelClass) (scopes : list string)
  (read_class : Projection) : result Endpoint :=
  Ok {| ep_name := "read_list_object"; ep_scopes := scopes;
        ep_signature :=
          [kw "current_user" AnnotationEmpty;
           kw "session" (AnnotationClass "Session");
           kw "offset" (AnnotationType py_int);
           kw "limit" (AnnotationType py_int);
           kw "sort" (AnnotationClass "Literal");
           kw "direction" (AnnotationClass "Literal");
           kw "filter" (AnnotationClass "Optional[str]")] |}.

Definition _create_object_wrapper (cls : ModelClass) (scopes : list string)
  (read_class : Projection) (create_class : Projection) : result Endpoint :=
  Ok {| ep_name := "create_object"; ep_scopes := scopes;
        ep_signature :=
          [kw "current_user" AnnotationEmpty;
           kw "session" (AnnotationClass "Session");
           kw "obj" (AnnotationClass (proj_name create_class))] |}.

Definition _update_object_wrapper (cls : ModelClass) (scopes : list string)
  (read_class : Projection) (update_class : Projection) : result Endpoint :=
  let sig := [kw "current_user" AnnotationEmpty;
              kw "session" (AnnotationClass "Session");
              kw "obj" (AnnotationClass (proj_name update_class)); var_kw] in
  try! new_sig <- _create_id_signature cls sig ;;
  Ok {| ep_name := "update_object"; ep_scopes := scopes;
        ep_signature := new_sig |}.

Definition _delete_object_wrapper (cls : ModelClass) (scopes : list string)
  : result Endpoint :=
  let sig := [kw "current_user" AnnotationEmpty;
              kw "session" (AnnotationClass "Session"); var_kw] in
  try! new_sig <- _create_id_signature cls sig ;;
  Ok {| ep_name := "delete_object"; ep_scopes := scopes;
        ep_signature := new_sig |}.

(** One registered route; [name] and [description] are left out. *)
Record Route : Type := {
  rt_path : string;
  rt_endpoint : Endpoint;
  rt_methods : list string;
  rt_response_model : option string;
  rt_status_code : option Z
}.

Definition Router : Type := list Route.

Definition add_api_route (r : Route) : M Router unit :=
  fun router => (Ok tt, router ++ [r]).

(** [cls.__update_class__]: the attribute exists only where the model
    declares it. *)
Definition get_update_class (cls : ModelClass) : result Projection :=
  match cls_update_class cls with
  | Some c => Ok c
  | None => Raise AttributeError
  end.

Definition register_read_single (cls : ModelClass) (route : string)
  (scopes : list string) : M Router unit :=
  let path := String.append (String.append "/" route) (_as_id_endpoint cls) in
  endpoint <- lift (_read_single_object_wrapper cls scopes (cls_read_class cls)) ;;
  add_api_route
    {| rt_path := path; rt_endpoint := endpoint; rt_methods := ["GET"];
       rt_response_model := Some (proj_name (cls_read_class cls));
       rt_status_code := None |}.

Definition register_read_list (cls : ModelClass) (route : string)
  (scopes : list string) : M Router unit :=
  endpoint <- lift (_read_list_object_wrapper cls scopes (cls_read_class cls)) ;;
  add_api_route
    {| rt_path := String.append "/" route; rt_endpoint := endpoint;
       rt_methods := ["GET"];
       rt_response_model :=
         Some (String.append "PaginatedResponse["
                 (String.append (proj_name (cls_read_class cls)) "]"));
       rt_status_code := None |}.

Definition register_create (cls : ModelClass) (route : string)
  (scopes : list string) : M Router unit :=
  update_class <- lift (get_update_class cls) ;;
  endpoint <- lift (_create_object_wrapper cls scopes (cls_read_class cls)
                      update_class) ;;
  add_api_route
    {| rt_path := String.append "/" route; rt_endpoint := endpoint;
       rt_methods := ["POST"];
       rt_response_model := Some (proj_name (cls_read_class cls));
       rt_status_code := Some HTTP_201_CREATED |}.

Definition register_update (cls : ModelClass) (route : string)
  (scopes : list string) : M Router unit :=
  update_class <- lift (get_update_class cls) ;;
  endpoint <- lift (_update_object_wrapper cls scopes (cls_read_class cls)
                      update_class) ;;
  add_api_route
    {| rt_path := String.append "/" route; rt_endpoint := endpoint;
       rt_methods := ["PATCH"];
       rt_response_model := Some (proj_name (cls_read_class cls));
       rt_status_code := None |}.

Definition register_delete (cls : ModelClass) (route : string)
  (scopes : list string) : M Router unit :=
  endpoint <- lift (_delete_object_wrapper cls scopes) ;;
  add_api_route
    {| rt_path := String.append "/" route; rt_endpoint := endpoint;
       rt_methods := ["DELETE"];
       rt_response_model := None;
       rt_status_code := Some HTTP_204_NO_CONTENT |}.

(** Keyword arguments of a call of one of the [register_*] methods. *)
Inductive KwArg : Type :=
| KwRouter
| KwStr (s : string)
| KwScopes (l : list string).

Fixpoint kwargs_get (kwargs : list (string * KwArg)) (k : string) : option KwArg :=
  match kwargs with
  | [] => None
  | (k', a) :: rest => if String.eqb k k' then Some a else kwargs_get rest k
  end.

(** Binding of keyword arguments to keyword-only parameters without
    defaults: an unexpected keyword and a missing one are both a
    [TypeError]. *)
Definition bind_keywords (parameters : list string) (kwargs : list (string * KwArg))
  : result (list (string * KwArg)) :=
  if forallb (fun kv => str_mem (fst kv) parameters) kwargs
     && forallb (fun p => str_mem p (map fst kwargs)) parameters
  then Ok kwargs
  else Raise TypeError.

(** [cls.register_delete( **kwargs )]. *)
Definition call_register_delete (cls : ModelClass) (kwargs : list (string * KwArg))
  : M Router unit :=
  bound <- lift (bind_keywords ["router"; "route"; "scopes"] kwargs) ;;
  match kwargs_get bound "route", kwargs_get bound "scopes" with
  | Some (KwStr route), Some (KwScopes scopes) => register_delete cls route scopes
  | _, _ => raise TypeError
  end.

Definition register_routes (cls : ModelClass) (route : string)
  (read write : list string) : M Router unit :=
  register_read_single cls route read ;;;
  register_read_list cls route read ;;;
  register_create cls route write ;;;
  register_update cls route write ;;;
  call_register_delete cls
    [("router", KwRouter); ("rotue", KwStr route); ("scopes", KwScopes write)].

(** What the design document asks of the generated signature: the
    parameters of the handler without [kwargs], followed by one
    keyword-only parameter per primary-key column. *)
Definition spec_id_parameters (cls : ModelClass) (old_sig : Params) : Params :=
  filter (fun p => negb (String.eqb "kwargs" (p_name p))) old_sig
  ++ map (fun key => {| p_name := c_name key;
                        p_kind := KEYWORD_ONLY;
                        p_annotation := annotation_of (column_python_type key) |})
       (primary_key cls).

(* ================================================================= *)
(** ** Single-object operations

    The session is the list of committed rows of the table of the model.
    Changes reach it at [commit]; an exception raised before [commit]
    leaves it as it was. *)

(** [cls( **raw_obj )] for a table model.  Table models are built without
    validation: a field takes the argument of its name, else its declared
    default, else stays unset. *)
Fixpoint table_init (fields : list (string * option Value)) (kwargs : Dict) : Dict :=
  match fields with
  | [] => []
  | (name, default) :: rest =>
      match dict_get kwargs name with
      | Some v => (name, v) :: table_init rest kwargs
      | None =>
          match default with
          | Some d => (name, d) :: table_init rest kwargs
          | None => table_init rest kwargs
          end
      end
  end.

Definition to_db (cls : ModelClass) (raw_obj : Dict) : Dict :=
  table_init (cls_fields cls) raw_obj.

Definition model_dump (obj : Dict) : Dict := obj.

(** An unset attribute of a table instance reads as [None]. *)
Definition _as_id_tuple (cls : ModelClass) (self : Dict) : list Value :=
  map (fun key => column_value self (c_name key)) (primary_key cls).

(** [session.get(cls, id)].  An identifier of the wrong length is
    refused. *)
Definition session_get (cls : ModelClass) (session : Session) (id : list Value)
  : result (option Dict) :=
  if Nat.eqb (List.length id) (List.length (primary_key cls))
  then Ok (find (fun row => tuple_eqb (_as_id_tuple cls row) id) session)
  else Raise DBAPIError.

(** [session.add(obj); session.commit()] for a new object.  The row is
    stored as constructed; keys generated by the database are not
    modelled. *)
Definition session_insert (obj : Dict) : M Session unit :=
  fun session => (Ok tt, session ++ [obj]).

Definition has_none (id : list Value) : bool :=
  existsb (fun v => value_eqb v VNone) id.

(** [session.add(obj); session.commit()] for the object loaded under
    [old_id] and modified since: the row is rewritten, unless its new key
    is null or taken by another row. *)
Definition session_update (cls : ModelClass) (old_id : list Value) (obj : Dict)
  : M Session unit :=
  fun session =>
    let new_id := _as_id_tuple cls obj in
    if has_none new_id then (Raise IntegrityError, session)
    else if negb (tuple_eqb new_id old_id)
            && existsb (fun row => tuple_eqb (_as_id_tuple cls row) new_id) session
    then (Raise IntegrityError, session)
    else
      (Ok tt,
       map (fun row => if tuple_eqb (_as_id_tuple cls row) old_id then obj else row)
         session).

(** [session.delete(obj); session.commit()]. *)
Definition session_delete (cls : ModelClass) (obj : Dict) : M Session unit :=
  fun session =>
    (Ok tt,
     filter
       (fun row => negb (tuple_eqb (_as_id_tuple cls row) (_as_id_tuple cls obj)))
       session).

(** [session.refresh(instance)]; the argument is required. *)
Definition session_refresh (instance : option Dict) : result unit :=
  match instance with
  | Some _ => Ok tt
  | None => Raise TypeError
  end.

Definition not_found (cls : ModelClass) (id : list Value) : PyExc :=
  HTTPException HTTP_404_NOT_FOUND (DetailNotFound (cls_name cls) id) None.

Definition _base_read_single (cls : ModelClass) (session : Session)
  (read_class : Projection) (kwargs : Dict) : result Dict :=
  let id := map snd kwargs in
  try! obj <- session_get cls session id ;;
  match obj with
  | None => Raise (not_found cls id)
  | Some obj => from_db read_class obj
  end.

Definition _base_create_object (cls : ModelClass) (raw_obj : Dict)
  (read_class : Projection) : M Session Dict :=
  let obj := to_db cls (model_dump raw_obj) in
  let (valid_object, error) := cls_validate cls obj in
  if negb valid_object
  then raise (HTTPException HTTP_422_UNPROCESSABLE_ENTITY (DetailText error) None)
  else
    let obj_id := _as_id_tuple cls obj in
    session <- get_state ;;
    match session_get cls session obj_id with
    | Ok None =>
        session_insert obj ;;;
        lift (session_refresh None) ;;;
        lift (from_db read_class obj)
    | Ok (Some _) | Raise _ =>
        raise (HTTPException HTTP_422_UNPROCESSABLE_ENTITY (DetailExists obj_id) None)
    end.

(** The loop [for k, v in parsed_obj.model_dump().items(): setattr(obj, k, v)]. *)
Definition overwrite (obj : Dict) (items : Dict) : Dict :=
  fold_left (fun o kv => dict_set o (fst kv) (snd kv)) items obj.

Definition _base_update_object (cls : ModelClass) (read_class : Projection)
  (new_obj : Dict) (kwargs : Dict) : M Session Dict :=
  let id := map snd kwargs in
  session <- get_state ;;
  found <- lift (session_get cls session id) ;;
  match found with
  | None => raise (not_found cls id)
  | Some obj =>
      let parsed_obj := to_db cls (model_dump new_obj) in
      let obj := overwrite obj (model_dump parsed_obj) in
      let (valid_obj, error) := cls_validate cls obj in
      if negb valid_obj
      then raise (HTTPException HTTP_422_UNPROCESSABLE_ENTITY (DetailText error) None)
      else
        session_update cls id obj ;;;
        lift (session_refresh (Some obj)) ;;;
        lift (from_db read_class obj)
  end.

Definition _base_delete_object (cls : ModelClass) (kwargs : Dict) : M Session unit :=
  let id := map snd kwargs in
  session <- get_state ;;
  found <- lift (session_get cls session id) ;;
  match found with
  | None => raise (not_found cls id)
  | Some obj => session_delete cls obj
  end.

(** A second example model, with a field that has a default:
    [class Guild(BaseDB, table=True)] with [id: int] as key,
    [name: str] and [motto: Optional[str] = None]. *)
Definition GuildRead : Projection :=
  {| proj_name := "GuildRead";
     proj_fields := [("id", None); ("name", None); ("motto", Some VNone)] |}.

Definition GuildUpdate : Projection :=
  {| proj_name := "GuildUpdate"; proj_fields := [("name", None)] |}.

Definition Guild : ModelClass :=
  {| cls_name := "Guild";
     cls_dir :=
       [ {| attr_name := "id"; attr_callable := false |};
         {| attr_name := "metadata"; attr_callable := false |};
         {| attr_name := "motto"; attr_callable := false |};
         {| attr_name := "name"; attr_callable := false |} ];
     cls_mro :=
       [ {| ns_name := "Guild";
            ns_annotations :=
              Some [("id", AnnOther "int"); ("name", AnnStr);
                    ("motto", AnnOptionalStr)] |};
         {| ns_name := "BaseDB"; ns_annotations := Some [] |};
         {| ns_name := "SQLModel"; ns_annotations := Some [] |};
         {| ns_name := "BaseModel"; ns_annotations := Some [] |};
         object_ns ];
     cls_table :=
       [ {| c_name := "id"; c_type := INTEGER; c_primary_key := true |};
         {| c_name := "name"; c_type := VARCHAR; c_primary_key := false |};
         {| c_name := "motto"; c_type := VARCHAR; c_primary_key := false |} ];
     cls_fields := [("id", None); ("name", None); ("motto", Some VNone)];
     cls_read_class := GuildRead;
     cls_create_class := Some GuildUpdate;
     cls_update_class := Some GuildUpdate;
     cls_validate := base_validate |}.

Definition guild (id : Z) (name : string) (motto : Value) : Dict :=
  [("id", VInt id); ("name", VStr name); ("motto", motto)].

(* ================================================================= *)
(** ** Authorization gate ([security.py]) *)

(** The value of [user.access]: the class declares a list of strings, the
    records of [FAKE_DB] hold one string, and a table model is built
    without validation. *)
Inductive Access : Type :=
| AccessStr (s : string)
| AccessList (l : list string).

Record User : Type := {
  u_id : Z;
  u_username : string;
  u_email : string;
  u_disabled : bool;
  u_access : Access
}.

Definition FAKE_DB : list (string * User) :=
  [ ("admin",
     {| u_id := 1; u_username := "admin"; u_email := "admin@host.com";
        u_disabled := false; u_access := AccessStr "admin" |});
    ("user",
     {| u_id := 2; u_username := "user"; u_email := "user@host.com";
        u_disabled := false; u_access := AccessStr "player" |});
    ("disabled",
     {| u_id := 3; u_username := "disabled"; u_email := "disabled@host.com";
        u_disabled := true; u_access := AccessStr "player" |}) ].

Fixpoint get_user (db : list (string * User)) (username : string) : option User :=
  match db with
  | [] => None
  | (k, u) :: rest => if String.eqb username k then Some u else get_user rest username
  end.

(** The claims of a decoded token: [sub] and [scopes], either of which may
    be missing.  [jwt.decode] refuses a [sub] that is not a string; a
    [scopes] claim, when present, is a list of strings. *)
Record Payload : Type := {
  claim_sub : option string;
  claim_scopes : option (list string)
}.

(** What [jwt.decode] makes of the bearer token. *)
Inductive Decoded : Type :=
| JWTError
| Claims (payload : Payload).

(** [payload.get("scopes", [])]. *)
Definition requested_scopes (payload : Payload) : list string :=
  match claim_scopes payload with
  | Some l => l
  | None => []
  end.

(** [scope in permitted_scopes]: substring on a string, membership on a
    list. *)
Definition scope_in (scope : string) (permitted_scopes : Access) : bool :=
  match permitted_scopes with
  | AccessStr s => str_contains scope s
  | AccessList l => str_mem scope l
  end.

Definition dquote : string := String (ascii_of_nat 34) EmptyString.

Definition authenticate_value (scopes : list string) : string :=
  match scopes with
  | [] => "Bearer"
  | _ :: _ =>
      String.append "Bearer scope="
        (String.append dquote (String.append (join " " scopes) dquote))
  end.

Definition credentials_exception (scopes : list string) : PyExc :=
  HTTPException HTTP_401_UNAUTHORIZED (DetailText "Could not validate credentials")
    (Some (authenticate_value scopes)).

Definition access_exception (scopes : list string) : PyExc :=
  HTTPException HTTP_401_UNAUTHORIZED (DetailText "Not enough permissions")
    (Some (authenticate_value scopes)).

Definition inactive_user_exception : PyExc :=
  HTTPException HTTP_400_BAD_REQUEST
    (DetailText "The current user has been disabled.") None.

(** [scopes] are the scopes the operation declares ([SecurityScopes]). *)
Definition get_current_user (scopes : list string) (token : Decoded) : result User :=
  match token with
  | JWTError => Raise (credentials_exception scopes)
  | Claims payload =>
      match claim_sub payload with
      | None => Raise (credentials_exception scopes)
      | Some username =>
          match get_user FAKE_DB username with
          | None => Raise (credentials_exception scopes)
          | Some user =>
              let permitted_scopes := u_access user in
              if forallb (fun scope => scope_in scope permitted_scopes)
                   (requested_scopes payload)
              then Ok user
              else Raise (access_exception scopes)
          end
      end
  end.

Definition get_current_active_user (current_user : User) : result User :=
  if u_disabled current_user then Raise inactive_user_exception else Ok current_user.

(** [access.PLAYER]. *)
Definition PLAYER : string := "player".

(** A generated handler behind
    [Security(get_current_active_user, scopes=scopes)]: the dependency
    [get_current_user] sees the scopes of the handler followed by those of
    [get_current_active_user], and the body runs once both dependencies
    have returned. *)
Definition secured {A : Type} (scopes : list string) (token : Decoded)
  (body : User -> result A) : result A :=
  try! user <- get_current_user (scopes ++ [PLAYER]) token ;;
  try! current_user <- get_current_active_user user ;;
  body current_user.

(** What the design document asks of the gate: the granted scopes of the
    principal cover the scopes the operation requires. *)
Definition granted_scopes (a : Access) : list string :=
  match a with
  | AccessStr s => [s]
  | AccessList l => l
  end.

Definition spec_covers (granted : Access) (required : list string) : bool :=
  forallb (fun scope => str_mem scope (granted_scopes granted)) required.

(* ================================================================= *)
(** ** A model that overrides [validate] *)

(** [validate] of a model that refuses an empty or missing [username]. *)
Definition validate_username (self : Dict) : bool * string :=
  match dict_get self "username" with
  | Some (VStr s) =>
      if str_truthy s then (true, EmptyString)
      else (false, "username must not be empty")
  | _ => (false, "username must not be empty")
  end.

Definition StrictPlayer : ModelClass :=
  {| cls_name := "StrictPlayer";
     cls_dir := cls_dir Player;
     cls_mro := cls_mro Player;
     cls_table := cls_table Player;
     cls_fields := cls_fields Player;
     cls_read_class := PlayerRead;
     cls_create_class := Some PlayerCreate;
     cls_update_class := Some PlayerUpdate;
     cls_validate := validate_username |}.

(* ================================================================= *)
(** ** Login ([security.py]) *)

Definition DEFAULT_TOKEN_EXPIRY : Z := 30.

Record Token : Type := {
  access_token : string;
  token_type : string
}.

Section Login.

(** [pwd_context.verify(plain, hashed)] of passlib and [jwt.encode] of
    jose are taken as parameters.  The hash is optional: an attribute
    that was never set on a table instance reads as [None]. *)
Variable pwd_context_verify : string -> option string -> bool.
Variable jwt_encode : list (string * string) -> Z -> string.

Definition verify_password (plain : string) (hashed : option string) : bool :=
  pwd_context_verify plain hashed.

(** The records of the user directory carry no [hashed_password], so
    [user.hashed_password] is [None].  [None] is the [False] of the
    source. *)
Definition auth_user (db : list (string * User)) (username password : string)
  : option User :=
  match get_user db username with
  | None => None
  | Some user =>
      if negb (verify_password password None) then None else Some user
  end.

(** [datetime] is the module, imported by [import datetime]; it has no
    attribute [now]. *)
Definition datetime_now : result Z := Raise AttributeError.

(** [expires_delta] in minutes; [timedelta(0)] is false. *)
Definition create_access_token (data : list (string * string))
  (expires_delta : option Z) : result string :=
  let to_encode := data in
  let expires_delta :=
    match expires_delta with
    | Some d => if Z.eqb d 0 then 15%Z else d
    | None => 15%Z
    end in
  try! now <- datetime_now ;;
  let expire_time := (now + expires_delta)%Z in
  Ok (jwt_encode to_encode expire_time).

Definition login_for_access_token (username password : string) : result Token :=
  match auth_user FAKE_DB username password with
  | None =>
      Raise (HTTPException HTTP_400_BAD_REQUEST
               (DetailText "Invalid username or password") None)
  | Some user =>
      try! token <- create_access_token [("sub", u_username user)]
                      (Some DEFAULT_TOKEN_EXPIRY) ;;
      Ok {| access_token := token; token_type := "bearer" |}
  end.

End Login.

(* ================================================================= *)
(** * Properties *)

(** ** Reflection *)

Lemma scan_mro_defaults (mro : list Namespace) (a : string) (defaults r : list string) :
  scan_mro mro a defaults = Ok r -> r = defaults.
Proof.
  induction mro as [|clazz rest IH]; simpl; intros H.
  - now inversion H.
  - destruct (ns_annotations clazz) as [anns|]; [|discriminate].
    destruct (annotations_get anns a) as [t|]; [|now apply IH].
    destruct (in_str_annotations t); [discriminate|now apply IH].
Qed.

(** Whenever the MRO ends in a class without [__annotations__], a single
    class var is enough for discovery to raise. *)
Lemma scan_mro_object_raises (mro : list Namespace) (last : Namespace)
  (a : string) (defaults : list string) :
  ns_annotations last = None ->
  exists e, scan_mro (mro ++ [last]) a defaults = Raise e.
Proof.
  intros Hlast. induction mro as [|clazz rest IH]; simpl.
  - rewrite Hlast. now exists AttributeError.
  - destruct (ns_annotations clazz) as [anns|]; [|now exists AttributeError].
    destruct (annotations_get anns a) as [t|]; [|exact IH].
    destruct (in_str_annotations t); [now exists TypeError|exact IH].
Qed.

Lemma get_default_filters_raises (cls : ModelClass) (mro : list Namespace)
  (last : Namespace) :
  cls_mro cls = mro ++ [last] ->
  ns_annotations last = None ->
  _class_vars cls <> [] ->
  exists e, _get_default_filters cls [] = (Raise e, []).
Proof.
  intros Hmro Hlast Hvars.
  unfold _get_default_filters, bind, get_state, lift. simpl.
  destruct (_class_vars cls) as [|a rest]; [congruence|].
  simpl. rewrite Hmro.
  destruct (scan_mro_object_raises mro last a [] Hlast) as [e He].
  rewrite He. simpl. now exists e.
Qed.

(** Discovery never finds a filter field: when it returns, it returns the
    empty list, so the cache is never filled either. *)
Lemma get_default_filters_ok_nil (cls : ModelClass) (r cache : list string) :
  _get_default_filters cls [] = (Ok r, cache) -> r = [] /\ cache = [].
Proof.
  unfold _get_default_filters, bind, get_state, lift, put_state, ret. simpl.
  generalize (_class_vars cls) as vars.
  assert (Hgen : forall vars r',
             scan_class_vars (cls_mro cls) vars [] = Ok r' -> r' = []).
  { induction vars as [|a rest IH]; simpl; intros r' H.
    - now inversion H.
    - destruct (scan_mro (cls_mro cls) a []) as [d|e] eqn:E; simpl in H;
        [|discriminate].
      apply scan_mro_defaults in E. subst d. now apply IH. }
  intros vars.
  destruct (scan_class_vars (cls_mro cls) vars []) as [d|e] eqn:E;
    intros H; inversion H; subst.
  apply Hgen in E. now subst.
Qed.

(** The [TypeError] of [defaults.append[cls_attr]] does not depend on
    [object]: along the classes that do have annotations, the scan for
    [username] raises it. *)
Lemma scan_username_raises_type_error :
  scan_mro (removelast (cls_mro Player)) "username" [] = Raise TypeError.
Proof. reflexivity. Qed.

(** C6 (code defect).  On the [Player] table model, whose [username] field
    is annotated [str], default-filter discovery raises instead of
    returning [["username"]], the list the design document describes. *)
Theorem C6_default_filters_raise_on_Player :
  _class_vars Player = ["id"; "username"] /\
  spec_default_filters Player = ["username"] /\
  _get_default_filters Player [] = (Raise AttributeError, []).
Proof. repeat split; reflexivity. Qed.

(** ** Query builder *)

Lemma session_exec_count (session : Session) (q : Query) (rows : list Dict) :
  session_exec session q = Ok rows ->
  session_count session q = Ok (Z.of_nat (List.length rows)).
Proof. unfold session_count. now intros ->. Qed.

Lemma map_result_length {A B : Type} (f : A -> result B) (l : list A) (r : list B) :
  map_result f l = Ok r -> List.length r = List.length l.
Proof.
  revert r. induction l as [|x rest IH]; simpl; intros r H.
  - now inversion H.
  - destruct (f x) as [y|e]; simpl in H; [|discriminate].
    destruct (map_result f rest) as [ys|e]; simpl in H; [|discriminate].
    inversion H; subst. simpl. f_equal. now apply IH.
Qed.

(** Whatever the list operation returns, its [total] is the number of rows
    of the page. *)
Lemma read_list_total_is_page_length (cls : ModelClass) (session : Session)
  (offset limit : Z) (sort : option string) (direction : Direction)
  (filter : option string) (read_class : Projection)
  (cache cache' : list string) (r : PaginatedResponse) :
  _base_read_list_object cls session offset limit sort direction filter
    read_class cache = (Ok r, cache') ->
  total r = Z.of_nat (List.length (data r)).
Proof.
  unfold _base_read_list_object, bind.
  destruct (match filter with
            | Some f => if str_truthy f then apply_filter cls select f else ret select
            | None => ret select
            end cache) as [[q|e] c1]; [|discriminate].
  destruct (match sort with
            | Some s =>
                if str_truthy s
                then lift (try! o <- sort_expression cls s direction ;;
                           Ok (order_by (limit_ (offset_ q offset) limit) (fst o) (snd o)))
                else ret (limit_ (offset_ q offset) limit)
            | None => ret (limit_ (offset_ q offset) limit)
            end c1) as [[q'|e] c2]; [|discriminate].
  unfold lift, session_count.
  destruct (session_exec session q') as [rows|e]; simpl; [|discriminate].
  destruct (map_result (from_db read_class) rows) as [objs|e] eqn:E;
    [|discriminate].
  unfold ret. intros H. inversion H; subst. simpl.
  now rewrite (map_result_length _ _ _ E).
Qed.

(** C1 (code defect).  Three players are stored; the first page of size one,
    without filter, reports [total = 1], the size of the page, where the
    full filtered set has three rows. *)
Theorem C1_total_counts_the_page :
  _base_read_list_object Player three_players 0 1 (Some "id") asc None PlayerRead []
  = (Ok {| total := 1; data := [player 1 "alice"] |}, []) /\
  spec_count Player three_players None = 3%Z.
Proof. split; reflexivity. Qed.

Lemma insert_sorted_length (leb : Dict -> Dict -> bool) (r : Dict) (rows : list Dict) :
  List.length (insert_sorted leb r rows) = S (List.length rows).
Proof.
  induction rows as [|r' rest IH]; simpl; [reflexivity|].
  destruct (leb r r'); simpl; [reflexivity|now rewrite IH].
Qed.

Lemma sort_rows_length (leb : Dict -> Dict -> bool) (rows : list Dict) :
  List.length (sort_rows leb rows) = List.length rows.
Proof.
  induction rows as [|r rest IH]; simpl; [reflexivity|].
  unfold sort_rows in *. now rewrite insert_sorted_length, IH.
Qed.

Lemma apply_order_length (o : option (string * Direction)) (rows : list Dict) :
  List.length (apply_order o rows) = List.length rows.
Proof. destruct o as [[c d]|]; simpl; [apply sort_rows_length|reflexivity]. Qed.

(** A page never has more rows than the non-negative limit of its
    statement. *)
Lemma session_exec_limit (session : Session) (q : Query) (n : Z) (rows : list Dict) :
  (0 <= n)%Z ->
  q_limit q = Some n ->
  session_exec session q = Ok rows ->
  (Z.of_nat (List.length rows) <= n)%Z.
Proof.
  unfold session_exec. intros Hn Hl. rewrite Hl. unfold apply_limit.
  destruct (Z.ltb_spec n 0) as [Hn'|Hn']; [lia|].
  intros Hr. inversion Hr; subst. rewrite length_firstn. lia.
Qed.

(** Past the end of the filtered set the page is empty. *)
Lemma session_exec_offset_past_end (session : Session) (q : Query) (n : Z)
  (rows : list Dict) :
  q_offset q = Some n ->
  (Z.of_nat (List.length (filter (eval_where (q_where q)) session)) <= n)%Z ->
  session_exec session q = Ok rows ->
  rows = [].
Proof.
  unfold session_exec. intros Ho Hn. rewrite Ho. unfold apply_offset.
  intros H. inversion H; subst.
  rewrite skipn_all2 by (rewrite apply_order_length; lia).
  destruct (q_limit q) as [l|]; simpl; [|reflexivity].
  destruct (Z.ltb l 0); [reflexivity|apply firstn_nil].
Qed.

(** The page of the list operation is bounded by a non-negative [limit]
    whenever the operation returns. *)
Lemma read_list_page_bounded (cls : ModelClass) (session : Session)
  (offset limit : Z) (sort : option string) (direction : Direction)
  (filter : option string) (read_class : Projection)
  (cache cache' : list string) (r : PaginatedResponse) :
  (0 <= limit)%Z ->
  _base_read_list_object cls session offset limit sort direction filter
    read_class cache = (Ok r, cache') ->
  (Z.of_nat (List.length (data r)) <= limit)%Z.
Proof.
  intros Hlimit. unfold _base_read_list_object, bind.
  destruct (match filter with
            | Some f => if str_truthy f then apply_filter cls select f else ret select
            | None => ret select
            end cache) as [[q|e] c1]; [|discriminate].
  destruct sort as [s|];
    [destruct (str_truthy s);
     [destruct (sort_expression cls s direction) as [o|e]|]|];
    unfold lift, ret, session_count; cbv beta iota delta [rbind];
    try discriminate;
    match goal with
    | |- context [session_exec session ?q'] =>
        destruct (session_exec session q') as [rows|e] eqn:Ex; simpl;
        [|discriminate];
        destruct (map_result (from_db read_class) rows) as [objs|e] eqn:E;
        [|discriminate];
        intros Hr; inversion Hr; subst; simpl;
        rewrite (map_result_length _ _ _ E);
        apply (session_exec_limit session q' limit rows Hlimit eq_refl Ex)
    end.
Qed.

(** Without filter text and with a sort column of the table, the list
    operation returns the empty page for an offset past the end. *)
Lemma read_list_unfiltered_past_end (cls : ModelClass) (session : Session)
  (offset limit : Z) (sort : string) (direction : Direction)
  (read_class : Projection) (cache : list string) :
  (0 <= limit)%Z ->
  (Z.of_nat (List.length session) <= offset)%Z ->
  is_column cls sort = true ->
  _base_read_list_object cls session offset limit (Some sort) direction None
    read_class cache = (Ok {| total := 0; data := [] |}, cache).
Proof.
  intros Hl Ho Hs.
  unfold _base_read_list_object, bind, ret, lift, sort_expression.
  rewrite Hs.
  assert (Hex : forall q,
             q_where q = [] -> q_offset q = Some offset -> q_limit q = Some limit ->
             session_exec session q = Ok []).
  { intros q Hw Hof Hli. unfold session_exec. rewrite Hw, Hof, Hli.
    pose proof (filter_length_le (eval_where []) session) as Hf.
    unfold apply_limit, apply_offset.
    destruct (Z.ltb_spec limit 0); [lia|].
    rewrite skipn_all2; [now rewrite firstn_nil|].
    rewrite apply_order_length. lia. }
  destruct (str_truthy sort);
    cbv beta iota delta [rbind session_count fst snd];
    rewrite !Hex by reflexivity; reflexivity.
Qed.

(** With filter text, the list operation raises as soon as discovery
    does. *)
Lemma read_list_filtered_raises (cls : ModelClass) (mro : list Namespace)
  (last : Namespace) (session : Session) (offset limit : Z)
  (sort : option string) (direction : Direction) (f : string)
  (read_class : Projection) :
  cls_mro cls = mro ++ [last] ->
  ns_annotations last = None ->
  _class_vars cls <> [] ->
  str_truthy f = true ->
  exists e,
    _base_read_list_object cls session offset limit sort direction (Some f)
      read_class [] = (Raise e, []).
Proof.
  intros Hmro Hlast Hvars Hf.
  destruct (get_default_filters_raises cls mro last Hmro Hlast Hvars) as [e He].
  exists e. unfold _base_read_list_object, bind, apply_filter, bind.
  now rewrite Hf, He.
Qed.

(** C4 (code defect).  [Player] has the default-filter field [username];
    with the filter text "ali" the list query is never built, the filter
    step raises, where the design document selects the row of alice. *)
Theorem C4_filter_raises_on_Player :
  apply_filter Player select "ali" [] = (Raise AttributeError, []) /\
  _base_read_list_object Player [player 1 "alice"] 0 100 (Some "id") asc
    (Some "ali") PlayerRead [] = (Raise AttributeError, []) /\
  spec_filtered Player [player 1 "alice"] (Some "ali") = [player 1 "alice"].
Proof. repeat split; reflexivity. Qed.

(** C8 (code defect).  One player is stored and no row matches "zzz"; with
    offset 5, past the end of the (empty) filtered set, the list operation
    raises instead of returning the empty page. *)
Theorem C8_filtered_page_past_end_raises :
  spec_filtered Player [player 1 "alice"] (Some "zzz") = [] /\
  _base_read_list_object Player [player 1 "alice"] 5 10 (Some "id") asc
    (Some "zzz") PlayerRead [] = (Raise AttributeError, []).
Proof. split; reflexivity. Qed.

(** ** Generated signatures and route registration *)

(** The last line of [_create_id_signature] raises on every path that
    reaches it: no signature is ever produced. *)
Lemma create_id_signature_raises (cls : ModelClass) (old_sig : Params) :
  exists e, _create_id_signature cls old_sig = Raise e.
Proof.
  unfold _create_id_signature.
  destruct (modified_parameters cls old_sig) as [m|e]; simpl; eauto.
Qed.

(** On [Player] the parameters assembled before the last line are the
    ones the design document describes. *)
Lemma modified_parameters_Player :
  modified_parameters Player
    [kw "current_user" AnnotationEmpty; kw "session" (AnnotationClass "Session");
     var_kw]
  = Ok (spec_id_parameters Player
          [kw "current_user" AnnotationEmpty;
           kw "session" (AnnotationClass "Session"); var_kw]).
Proof. reflexivity. Qed.

(** C7 (code defect).  For [Player], with the single integer key [id], the
    rewriting of the signature of the read-one handler raises; the same
    happens for the update and delete handlers, where the design document
    expects the parameter [id : int]. *)
Theorem C7_id_signature_raises_on_Player :
  _create_id_signature Player
    [kw "current_user" AnnotationEmpty; kw "session" (AnnotationClass "Session");
     var_kw] = Raise AttributeError /\
  _read_single_object_wrapper Player ["player"] PlayerRead = Raise AttributeError /\
  _update_object_wrapper Player ["admin"] PlayerRead PlayerUpdate = Raise AttributeError /\
  _delete_object_wrapper Player ["admin"] = Raise AttributeError /\
  spec_id_parameters Player
    [kw "current_user" AnnotationEmpty; kw "session" (AnnotationClass "Session");
     var_kw]
  = [kw "current_user" AnnotationEmpty; kw "session" (AnnotationClass "Session");
     kw "id" (AnnotationType py_int)].
Proof. repeat split; reflexivity. Qed.

(** Registration stops at its first step, whatever the model. *)
Lemma register_routes_raises (cls : ModelClass) (route : string)
  (read write : list string) (router : Router) :
  exists e, register_routes cls route read write router = (Raise e, router).
Proof.
  unfold register_routes, bind, register_read_single, bind, lift,
    _read_single_object_wrapper.
  destruct (create_id_signature_raises cls
              [kw "current_user" AnnotationEmpty;
               kw "session" (AnnotationClass "Session"); var_kw]) as [e He].
  rewrite He. simpl. now exists e.
Qed.

(** The call of [register_delete] names its second argument [rotue]: it
    cannot be bound. *)
Lemma call_register_delete_rotue (cls : ModelClass) (route : string)
  (write : list string) (router : Router) :
  call_register_delete cls
    [("router", KwRouter); ("rotue", KwStr route); ("scopes", KwScopes write)]
    router = (Raise TypeError, router).
Proof. reflexivity. Qed.

(** C5 (code defect).  Registering the routes of [Player] raises and leaves
    the router empty: none of the five operations is registered. *)
Theorem C5_register_routes_raises_on_Player :
  register_routes Player "player" ["player"] ["admin"] []
  = (Raise AttributeError, []).
Proof. reflexivity. Qed.

(** ** Single-object operations *)

Lemma value_eqb_eq (a b : Value) : value_eqb a b = true -> a = b.
Proof.
  destruct a, b; simpl; try discriminate; intros H.
  - reflexivity.
  - apply Z.eqb_eq in H. now subst.
  - apply String.eqb_eq in H. now subst.
  - apply Bool.eqb_prop in H. now subst.
Qed.

Lemma tuple_eqb_eq (a b : list Value) : tuple_eqb a b = true -> a = b.
Proof.
  revert b. induction a as [|x a IH]; destruct b as [|y b]; simpl;
    try discriminate; [reflexivity|].
  intros H. apply andb_prop in H. destruct H as [Hx Ha].
  apply value_eqb_eq in Hx. apply IH in Ha. now subst.
Qed.

Lemma find_filter_none {A : Type} (f g : A -> bool) (l : list A) :
  (forall x, f x = true -> g x = true) ->
  find f (filter (fun x => negb (g x)) l) = None.
Proof.
  intros Hfg. induction l as [|x l IH]; simpl; [reflexivity|].
  destruct (g x) eqn:Hg; simpl; [exact IH|].
  destruct (f x) eqn:Hf; [|exact IH].
  apply Hfg in Hf. congruence.
Qed.

Lemma session_get_some_id (cls : ModelClass) (session : Session)
  (id : list Value) (obj : Dict) :
  session_get cls session id = Ok (Some obj) -> _as_id_tuple cls obj = id.
Proof.
  unfold session_get.
  destruct (Nat.eqb (List.length id) (List.length (primary_key cls)));
    [|discriminate].
  intros H. inversion H as [Hf]. apply find_some in Hf.
  now apply tuple_eqb_eq.
Qed.

Lemma session_get_length (cls : ModelClass) (session : Session)
  (id : list Value) (found : option Dict) :
  session_get cls session id = Ok found ->
  Nat.eqb (List.length id) (List.length (primary_key cls)) = true.
Proof.
  unfold session_get.
  now destruct (Nat.eqb (List.length id) (List.length (primary_key cls))).
Qed.

(** Creation never returns: every path ends in an exception. *)
Lemma create_never_returns (cls : ModelClass) (raw_obj : Dict)
  (read_class : Projection) (session session' : Session) (r : Dict) :
  _base_create_object cls raw_obj read_class session <> (Ok r, session').
Proof.
  unfold _base_create_object.
  destruct (cls_validate cls (to_db cls (model_dump raw_obj))) as [valid error].
  destruct valid; simpl; [|discriminate].
  unfold bind, get_state, raise.
  destruct (session_get cls session _) as [[o|]|e]; simpl; discriminate.
Qed.

(** A create request whose key is taken is rejected with 422 and stores
    nothing. *)
Lemma create_duplicate_rejected (cls : ModelClass) (raw_obj : Dict)
  (read_class : Projection) (session : Session) (existing : Dict) :
  fst (cls_validate cls (to_db cls raw_obj)) = true ->
  session_get cls session (_as_id_tuple cls (to_db cls raw_obj)) = Ok (Some existing) ->
  _base_create_object cls raw_obj read_class session
  = (Raise (HTTPException HTTP_422_UNPROCESSABLE_ENTITY
              (DetailExists (_as_id_tuple cls (to_db cls raw_obj))) None),
     session).
Proof.
  intros Hv Hg. unfold _base_create_object, model_dump.
  destruct (cls_validate cls (to_db cls raw_obj)) as [valid error].
  simpl in Hv. subst valid. simpl.
  unfold bind, get_state, raise. now rewrite Hg.
Qed.

(** C3 (code defect).  Creating the player alice in an empty table commits
    the row and then raises [TypeError], where the design document returns
    the Read projection with 201; and the create route decodes its body as
    [PlayerUpdate], the Update projection, not as [PlayerCreate]. *)
Theorem C3_create_commits_then_raises :
  _base_create_object Player [("username", VStr "alice")] PlayerRead []
  = (Raise TypeError, [[("username", VStr "alice")]]) /\
  register_create Player "player" ["admin"] []
  = (Ok tt,
     [ {| rt_path := "/player";
          rt_endpoint :=
            {| ep_name := "create_object"; ep_scopes := ["admin"];
               ep_signature :=
                 [kw "current_user" AnnotationEmpty;
                  kw "session" (AnnotationClass "Session");
                  kw "obj" (AnnotationClass "PlayerUpdate")] |};
          rt_methods := ["POST"];
          rt_response_model := Some "PlayerRead";
          rt_status_code := Some 201%Z |} ]).
Proof. split; reflexivity. Qed.

(** C9.  When the key is present, deletion returns nothing and a read of
    the same key afterwards is answered 404; when it is absent, deletion
    is answered 404 and the table is left as it was. *)
Theorem C9_delete_is_terminal (cls : ModelClass) (read_class : Projection)
  (kwargs : Dict) (session : Session) (found : option Dict) :
  session_get cls session (map snd kwargs) = Ok found ->
  match found with
  | Some obj =>
      exists session',
        _base_delete_object cls kwargs session = (Ok tt, session') /\
        session_get cls session' (map snd kwargs) = Ok None /\
        _base_read_single cls session' read_class kwargs
        = Raise (HTTPException 404 (DetailNotFound (cls_name cls) (map snd kwargs)) None)
  | None =>
      _base_delete_object cls kwargs session
      = (Raise (HTTPException 404 (DetailNotFound (cls_name cls) (map snd kwargs)) None),
         session)
  end.
Proof.
  intros Hg. unfold _base_delete_object, bind, get_state, lift. rewrite Hg.
  destruct found as [obj|]; [|reflexivity].
  unfold session_delete. eexists. split; [reflexivity|].
  assert (Hnone : session_get cls
                    (filter (fun row => negb (tuple_eqb (_as_id_tuple cls row)
                                                (_as_id_tuple cls obj))) session)
                    (map snd kwargs) = Ok None).
  { unfold session_get. rewrite (session_get_length _ _ _ _ Hg).
    f_equal. apply find_filter_none. intros row Hrow.
    now rewrite (session_get_some_id _ _ _ _ Hg). }
  split; [exact Hnone|].
  unfold _base_read_single. now rewrite Hnone.
Qed.

Lemma C9_delete_is_terminal_witness :
  exists session',
    _base_delete_object Player [("id", VInt 2)] three_players = (Ok tt, session') /\
    session_get Player session' [VInt 2] = Ok None /\
    _base_read_single Player session' PlayerRead [("id", VInt 2)]
    = Raise (HTTPException 404 (DetailNotFound "Player" [VInt 2]) None).
Proof.
  exact (C9_delete_is_terminal Player PlayerRead [("id", VInt 2)] three_players
           (Some (player 2 "bob")) eq_refl).
Defined.

Lemma dict_get_set_same (d : Dict) (k : string) (v : Value) :
  dict_get (dict_set d k v) k = Some v.
Proof.
  induction d as [|[k' v'] d IH]; simpl.
  - now rewrite String.eqb_refl.
  - destruct (String.eqb k k') eqn:E; simpl; rewrite ?String.eqb_refl, ?E; auto.
Qed.

Lemma dict_get_set_other (d : Dict) (k k' : string) (v : Value) :
  k <> k' -> dict_get (dict_set d k v) k' = dict_get d k'.
Proof.
  intros Hk. induction d as [|[k0 v0] d IH]; simpl.
  - destruct (String.eqb_spec k' k); congruence.
  - destruct (String.eqb_spec k k0); simpl.
    + subst k0. destruct (String.eqb_spec k' k); congruence.
    + now rewrite IH.
Qed.

Lemma dict_get_not_in (d : Dict) (k : string) :
  ~ In k (map fst d) -> dict_get d k = None.
Proof.
  induction d as [|[k' v'] d IH]; simpl; intros Hn; [reflexivity|].
  destruct (String.eqb_spec k k'); [subst; tauto|]. apply IH. tauto.
Qed.

(** After the overwrite loop a field holds the value of the dump when the
    dump has one, and its former value otherwise. *)
Lemma overwrite_get (items obj : Dict) (k : string) :
  NoDup (map fst items) ->
  dict_get (overwrite obj items) k
  = match dict_get items k with
    | Some v => Some v
    | None => dict_get obj k
    end.
Proof.
  revert obj. induction items as [|[k0 v0] items IH]; intros obj Hnd; simpl;
    [reflexivity|].
  inversion Hnd as [|? ? Hnotin Hnd']; subst.
  unfold overwrite in *. simpl. rewrite (IH _ Hnd').
  destruct (String.eqb_spec k k0).
  - subst k0. rewrite (dict_get_not_in _ _ Hnotin). apply dict_get_set_same.
  - destruct (dict_get items k); [reflexivity|].
    apply dict_get_set_other. congruence.
Qed.

Lemma table_init_keys (fields : list (string * option Value)) (kwargs : Dict)
  (k : string) :
  In k (map fst (table_init fields kwargs)) -> In k (map fst fields).
Proof.
  induction fields as [|[name default] fields IH]; simpl; [tauto|].
  destruct (dict_get kwargs name); [simpl; tauto|].
  destruct default; simpl; tauto.
Qed.

Lemma table_init_nodup (fields : list (string * option Value)) (kwargs : Dict) :
  NoDup (map fst fields) -> NoDup (map fst (table_init fields kwargs)).
Proof.
  induction fields as [|[name default] fields IH]; simpl; intros Hnd;
    [constructor|].
  inversion Hnd as [|? ? Hnotin Hnd']; subst.
  assert (Hn : ~ In name (map fst (table_init fields kwargs))).
  { intros Hin. apply Hnotin. eapply table_init_keys; eassumption. }
  destruct (dict_get kwargs name); [constructor; auto|].
  destruct default; [constructor; auto|auto].
Qed.

(** A field left out of the arguments is built with its declared default. *)
Lemma table_init_default (fields : list (string * option Value)) (kwargs : Dict)
  (k : string) (d : Value) :
  NoDup (map fst fields) ->
  In (k, Some d) fields ->
  dict_get kwargs k = None ->
  dict_get (table_init fields kwargs) k = Some d.
Proof.
  induction fields as [|[name default] fields IH]; simpl; intros Hnd Hin Hk;
    [tauto|].
  inversion Hnd as [|? ? Hnotin Hnd']; subst.
  destruct Hin as [Heq|Hin].
  - inversion Heq; subst. rewrite Hk. simpl. now rewrite String.eqb_refl.
  - assert (Hne : k <> name).
    { intros ->. apply Hnotin. now apply (in_map fst) in Hin. }
    specialize (IH Hnd' Hin Hk).
    destruct (dict_get kwargs name); [|destruct default]; simpl;
      try (destruct (String.eqb_spec k name); [congruence|]); exact IH.
Qed.

Lemma update_ok_inv (cls : ModelClass) (read_class : Projection)
  (new_obj kwargs : Dict) (session session' : Session) (r : Dict) :
  _base_update_object cls read_class new_obj kwargs session = (Ok r, session') ->
  exists old,
    session_get cls session (map snd kwargs) = Ok (Some old) /\
    from_db read_class (overwrite old (to_db cls new_obj)) = Ok r /\
    session'
    = map (fun row => if tuple_eqb (_as_id_tuple cls row) (map snd kwargs)
                      then overwrite old (to_db cls new_obj) else row) session.
Proof.
  unfold _base_update_object, bind, get_state, lift, model_dump.
  destruct (session_get cls session (map snd kwargs)) as [[old|]|e] eqn:Hg;
    try discriminate.
  destruct (cls_validate cls _) as [valid error].
  destruct valid; simpl; [|discriminate].
  unfold session_update.
  destruct (has_none _); [discriminate|].
  destruct (_ && _); [discriminate|]. simpl.
  destruct (from_db read_class _) as [r'|e] eqn:Ef; [|discriminate].
  intros H. inversion H; subst. exists old. auto.
Qed.

(** A field that the arguments name is built with the argument. *)
Lemma table_init_present (fields : list (string * option Value)) (kwargs : Dict)
  (k : string) (default : option Value) (v : Value) :
  NoDup (map fst fields) ->
  In (k, default) fields ->
  dict_get kwargs k = Some v ->
  dict_get (table_init fields kwargs) k = Some v.
Proof.
  induction fields as [|[name d] fields IH]; simpl; intros Hnd Hin Hk; [tauto|].
  inversion Hnd as [|? ? Hnotin Hnd']; subst.
  destruct Hin as [Heq|Hin].
  - inversion Heq; subst. rewrite Hk. simpl. now rewrite String.eqb_refl.
  - assert (Hne : k <> name).
    { intros ->. apply Hnotin. now apply (in_map fst) in Hin. }
    specialize (IH Hnd' Hin Hk).
    destruct (dict_get kwargs name); [|destruct d]; simpl;
      try (destruct (String.eqb_spec k name); [congruence|]); exact IH.
Qed.

(** A field that the arguments leave out and that has no default stays
    unset, and so does a name that is no field. *)
Lemma table_init_unset (fields : list (string * option Value)) (kwargs : Dict)
  (k : string) :
  dict_get kwargs k = None ->
  (forall d, ~ In (k, Some d) fields) ->
  dict_get (table_init fields kwargs) k = None.
Proof.
  induction fields as [|[name default] fields IH]; simpl; intros Hk Hnd;
    [reflexivity|].
  assert (IH' : dict_get (table_init fields kwargs) k = None).
  { apply IH; [exact Hk|]. intros d Hin. apply (Hnd d). now right. }
  destruct (dict_get kwargs name) as [v|] eqn:Hname.
  - simpl. destruct (String.eqb_spec k name); [congruence|exact IH'].
  - destruct default as [d|]; [|exact IH'].
    simpl. destruct (String.eqb_spec k name) as [->|Hne]; [|exact IH'].
    exfalso. apply (Hnd d). now left.
Qed.

Lemma no_default_of_nodup (fields : list (string * option Value)) (k : string) :
  NoDup (map fst fields) -> In (k, None) fields ->
  forall d, ~ In (k, Some d) fields.
Proof.
  induction fields as [|[name default] fields IH]; simpl; intros Hnd Hin d Hd;
    [tauto|].
  inversion Hnd as [|? ? Hnotin Hnd']; subst.
  destruct Hin as [Heq|Hin], Hd as [Heq'|Hd].
  - congruence.
  - inversion Heq; subst. apply Hnotin. now apply (in_map fst) in Hd.
  - inversion Heq'; subst. apply Hnotin. now apply (in_map fst) in Hin.
  - exact (IH Hnd' Hin d Hd).
Qed.

(** C10, as the source has it.  After a successful update the stored
    object holds the value of the update body for every field the body
    names, and the declared default for every field with a default that
    the body leaves out, key fields included; a field without default that
    the body leaves out keeps its stored value, and so does whatever is no
    field of the model.  The answer is the Read projection of that object,
    the rows of the key are replaced by it, and every other row is where
    and what it was. *)
Theorem C10_update_writes_instance_fields (cls : ModelClass)
  (read_class : Projection) (new_obj kwargs : Dict)
  (session session' : Session) (r : Dict) :
  NoDup (map fst (cls_fields cls)) ->
  _base_update_object cls read_class new_obj kwargs session = (Ok r, session') ->
  exists old new : Dict,
    session_get cls session (map snd kwargs) = Ok (Some old) /\
    (forall k default v, In (k, default) (cls_fields cls) ->
                         dict_get new_obj k = Some v ->
                         dict_get new k = Some v) /\
    (forall k d, In (k, Some d) (cls_fields cls) -> dict_get new_obj k = None ->
                 dict_get new k = Some d) /\
    (forall k, In (k, None) (cls_fields cls) -> dict_get new_obj k = None ->
               dict_get new k = dict_get old k) /\
    (forall k, ~ In k (map fst (cls_fields cls)) ->
               dict_get new k = dict_get old k) /\
    from_db read_class new = Ok r /\
    List.length session' = List.length session /\
    (forall n row, nth_error session n = Some row ->
                   nth_error session' n
                   = Some (if tuple_eqb (_as_id_tuple cls row) (map snd kwargs)
                           then new else row)).
Proof.
  intros Hnd H.
  apply update_ok_inv in H. destruct H as (old & Hg & Hr & Hs).
  assert (Hparsed : NoDup (map fst (to_db cls new_obj)))
    by (apply table_init_nodup; exact Hnd).
  exists old, (overwrite old (to_db cls new_obj)).
  split; [exact Hg|]. split; [|split; [|split; [|split; [|split; [|split]]]]].
  - intros k default v Hin Hk. rewrite overwrite_get by exact Hparsed.
    unfold to_db. now rewrite (table_init_present _ _ _ _ _ Hnd Hin Hk).
  - intros k d Hin Hk. rewrite overwrite_get by exact Hparsed.
    unfold to_db. now rewrite (table_init_default _ _ _ _ Hnd Hin Hk).
  - intros k Hin Hk. rewrite overwrite_get by exact Hparsed.
    unfold to_db.
    now rewrite (table_init_unset _ _ _ Hk (no_default_of_nodup _ _ Hnd Hin)).
  - intros k Hnotin. rewrite overwrite_get by exact Hparsed.
    rewrite dict_get_not_in; [reflexivity|].
    intros Hin. apply Hnotin. exact (table_init_keys _ _ _ Hin).
  - exact Hr.
  - rewrite Hs. apply length_map.
  - intros n row Hn. rewrite Hs, nth_error_map, Hn. reflexivity.
Qed.

Lemma C10_update_writes_instance_fields_witness :
  exists old new : Dict,
    session_get Guild [guild 1 "Knights" (VStr "For honour"); guild 2 "Owls" VNone]
      [VInt 1] = Ok (Some old) /\
    dict_get new "name" = Some (VStr "Raiders") /\
    dict_get new "motto" = Some VNone /\
    dict_get new "id" = dict_get old "id" /\
    from_db GuildRead new = Ok (guild 1 "Raiders" VNone).
Proof.
  assert (Hnd : NoDup (map fst (cls_fields Guild))).
  { simpl. repeat constructor; simpl; intuition discriminate. }
  destruct (C10_update_writes_instance_fields Guild GuildRead
              [("name", VStr "Raiders")] [("id", VInt 1)]
              [guild 1 "Knights" (VStr "For honour"); guild 2 "Owls" VNone]
              [guild 1 "Raiders" VNone; guild 2 "Owls" VNone]
              (guild 1 "Raiders" VNone) Hnd eq_refl)
    as (old & new & Hold & Hbody & Hdef & Hkeep & _ & Hread & _).
  exists old, new. repeat split.
  - exact Hold.
  - apply (Hbody "name" None); [simpl; tauto|reflexivity].
  - apply (Hdef "motto" VNone); [simpl; tauto|reflexivity].
  - apply Hkeep; [simpl; tauto|reflexivity].
  - exact Hread.
Defined.

(** C10 as stated fails: [name] is a field of [Guild] that is no key and
    has no default.  An update whose body names [motto] only succeeds, and
    the stored [name] is neither overwritten nor reset: it is [Knights] as
    before; the instance built from the body has no value for it. *)
Lemma C10_counterexample :
  _base_update_object Guild GuildRead [("motto", VStr "Onward")] [("id", VInt 1)]
    [guild 1 "Knights" (VStr "For honour")]
  = (Ok (guild 1 "Knights" (VStr "Onward")),
     [guild 1 "Knights" (VStr "Onward")]) /\
  dict_get (to_db Guild [("motto", VStr "Onward")]) "name" = None /\
  map c_name (primary_key Guild) = ["id"] /\
  In ("name", None) (cls_fields Guild).
Proof. repeat split; try reflexivity. simpl. tauto. Qed.

(** ** Authorization gate *)

(** A disabled principal is rejected with 400 once its token passes. *)
Lemma disabled_principal_rejected {A : Type} (scopes : list string)
  (payload : Payload) (username : string) (user : User) (body : User -> result A) :
  claim_sub payload = Some username ->
  get_user FAKE_DB username = Some user ->
  u_disabled user = true ->
  forallb (fun scope => scope_in scope (u_access user)) (requested_scopes payload) = true ->
  secured scopes (Claims payload) body = Raise inactive_user_exception.
Proof.
  intros Hs Hu Hd Hf. unfold secured, get_current_user, get_current_active_user.
  rewrite Hs, Hu, Hf. simpl. now rewrite Hd.
Qed.

(** C2 (code defect).  The principal [user] is active and is granted
    [player] only; a write operation requires [admin].  With a token that
    names [user] and carries no scopes, as login issues it, the body of the
    handler runs, where the design document answers 401: the scopes of the
    operation reach the challenge header and nothing else. *)
Theorem C2_required_scopes_not_enforced :
  get_user FAKE_DB "user"
  = Some {| u_id := 2; u_username := "user"; u_email := "user@host.com";
            u_disabled := false; u_access := AccessStr "player" |} /\
  spec_covers (AccessStr "player") ["admin"] = false /\
  secured ["admin"] (Claims {| claim_sub := Some "user"; claim_scopes := None |})
    (fun u => Ok (u_username u))
  = Ok "user".
Proof. repeat split; reflexivity. Qed.

(* ================================================================= *)
(** * Further properties *)

(** ** List operation *)

Lemma read_list_total_is_page_length_witness :
  total {| total := 1; data := [player 1 "alice"] |}
  = Z.of_nat (List.length (data {| total := 1; data := [player 1 "alice"] |})).
Proof.
  exact (read_list_total_is_page_length Player three_players 0 1 (Some "id") asc
           None PlayerRead [] [] {| total := 1; data := [player 1 "alice"] |}
           eq_refl).
Defined.

Lemma read_list_page_bounded_witness :
  (Z.of_nat (List.length (data {| total := 2; data := [player 3 "carol"; player 2 "bob"] |}))
   <= 2)%Z.
Proof.
  apply (read_list_page_bounded Player three_players 0 2 (Some "username") desc
           None PlayerRead [] []
           {| total := 2; data := [player 3 "carol"; player 2 "bob"] |});
    [lia | reflexivity].
Defined.

Lemma read_list_unfiltered_past_end_witness :
  _base_read_list_object Player three_players 3 10 (Some "id") asc None PlayerRead []
  = (Ok {| total := 0; data := [] |}, []).
Proof.
  apply (read_list_unfiltered_past_end Player three_players 3 10 "id" asc
           PlayerRead []); [lia | simpl; lia | reflexivity].
Defined.

Lemma read_list_filtered_raises_witness :
  exists e,
    _base_read_list_object Player three_players 0 100 (Some "id") asc (Some "bo")
      PlayerRead [] = (Raise e, []).
Proof.
  apply (read_list_filtered_raises Player (removelast (cls_mro Player)) object_ns);
    [reflexivity | reflexivity | discriminate | reflexivity].
Defined.

Lemma filter_all {A : Type} (f : A -> bool) (l : list A) :
  (forall x, f x = true) -> filter f l = l.
Proof.
  intros Hf. induction l as [|x l IH]; simpl; [reflexivity|].
  now rewrite Hf, IH.
Qed.

Lemma map_result_app {A B : Type} (f : A -> result B) (a b : list A)
  (ra rb : list B) :
  map_result f a = Ok ra -> map_result f b = Ok rb ->
  map_result f (a ++ b) = Ok (ra ++ rb).
Proof.
  revert ra. induction a as [|x a IH]; simpl; intros ra Ha Hb.
  - inversion Ha; subst. exact Hb.
  - destruct (f x) as [y|e]; simpl in *; [|discriminate].
    destruct (map_result f a) as [ys|e]; simpl in *; [|discriminate].
    inversion Ha; subst. now rewrite (IH ys eq_refl Hb).
Qed.

Lemma map_result_In {A B : Type} (f : A -> result B) (l : list A) (r : list B)
  (y : B) :
  map_result f l = Ok r -> In y r -> exists x, In x l /\ f x = Ok y.
Proof.
  revert r. induction l as [|x l IH]; simpl; intros r Hr Hy.
  - inversion Hr; subst. destruct Hy.
  - destruct (f x) as [y'|e] eqn:Ex; simpl in Hr; [|discriminate].
    destruct (map_result f l) as [ys|e]; simpl in Hr; [|discriminate].
    inversion Hr; subst. destruct Hy as [->|Hy].
    + exists x. auto.
    + destruct (IH ys eq_refl Hy) as (x' & Hin & Hx'). exists x'. auto.
Qed.

Lemma firstn_plus {A : Type} (a b : nat) (l : list A) :
  firstn (a + b) l = firstn a l ++ firstn b (skipn a l).
Proof.
  revert l. induction a as [|a IH]; intros l; simpl; [reflexivity|].
  destruct l as [|x l]; simpl; [now rewrite firstn_nil|]. now rewrite IH.
Qed.

Lemma insert_sorted_In (leb : Dict -> Dict -> bool) (r x : Dict) (rows : list Dict) :
  In x (insert_sorted leb r rows) -> x = r \/ In x rows.
Proof.
  induction rows as [|r' rows IH]; simpl.
  - intros [H|[]]. now left.
  - destruct (leb r r'); simpl; intros [H|H]; auto.
    destruct (IH H); auto.
Qed.

Lemma sort_rows_In (leb : Dict -> Dict -> bool) (x : Dict) (rows : list Dict) :
  In x (sort_rows leb rows) -> In x rows.
Proof.
  unfold sort_rows. induction rows as [|r rows IH]; simpl; [tauto|].
  intros H. apply insert_sorted_In in H. destruct H as [->|H]; [now left|].
  right. now apply IH.
Qed.

Lemma session_exec_In (session : Session) (q : Query) (rows : list Dict) (x : Dict) :
  session_exec session q = Ok rows -> In x rows -> In x session.
Proof.
  unfold session_exec.
  intros H Hx. inversion H; subst. clear H.
  assert (Hl : In x (apply_offset (q_offset q)
                       (apply_order (q_order_by q)
                          (filter (eval_where (q_where q)) session)))).
  { destruct (q_limit q) as [n|]; simpl in Hx; [|exact Hx].
    destruct (Z.ltb n 0); [exact Hx|].
    rewrite <- (firstn_skipn (Z.to_nat n)). apply in_or_app. now left. }
  assert (Ho : In x (apply_order (q_order_by q)
                       (filter (eval_where (q_where q)) session))).
  { destruct (q_offset q) as [n|]; simpl in Hl; [|exact Hl].
    rewrite <- (firstn_skipn (Z.to_nat n)). apply in_or_app. now right. }
  assert (Hf : In x (filter (eval_where (q_where q)) session)).
  { destruct (q_order_by q) as [[c d]|]; simpl in Ho; [|exact Ho].
    exact (sort_rows_In _ _ _ Ho). }
  apply filter_In in Hf. tauto.
Qed.

(** Every item of a page is the Read projection of a stored row: the list
    operation invents nothing. *)
Theorem read_list_items_are_stored (cls : ModelClass) (session : Session)
  (offset limit : Z) (sort : option string) (direction : Direction)
  (filter : option string) (read_class : Projection)
  (cache cache' : list string) (r : PaginatedResponse) (item : Dict) :
  _base_read_list_object cls session offset limit sort direction filter
    read_class cache = (Ok r, cache') ->
  In item (data r) ->
  exists row, In row session /\ from_db read_class row = Ok item.
Proof.
  unfold _base_read_list_object, bind.
  destruct (match filter with
            | Some f => if str_truthy f then apply_filter cls select f else ret select
            | None => ret select
            end cache) as [[q|e] c1]; [|discriminate].
  destruct sort as [s|];
    [destruct (str_truthy s);
     [destruct (sort_expression cls s direction) as [o|e]|]|];
    unfold lift, ret, session_count; cbv beta iota delta [rbind];
    try discriminate;
    match goal with
    | |- context [session_exec session ?q'] =>
        destruct (session_exec session q') as [rows|e] eqn:Ex; simpl;
        [|discriminate];
        destruct (map_result (from_db read_class) rows) as [objs|e] eqn:E;
        [|discriminate];
        intros Hr Hin; inversion Hr; subst; simpl in Hin;
        destruct (map_result_In _ _ _ _ E Hin) as (row & Hrow & Hproj);
        exists row; split; [exact (session_exec_In _ _ _ _ Ex Hrow)|exact Hproj]
    end.
Qed.

Lemma read_list_items_are_stored_witness :
  exists row, In row three_players /\ from_db PlayerRead row = Ok (player 2 "bob").
Proof.
  apply (read_list_items_are_stored Player three_players 1 1 (Some "id") asc None
           PlayerRead [] [] {| total := 1; data := [player 2 "bob"] |}
           (player 2 "bob") eq_refl).
  simpl. tauto.
Defined.

(** Without filter text and sorted by a column, the list operation is the
    Read projection of a window of the sorted table. *)
Lemma read_list_unfiltered (cls : ModelClass) (session : Session)
  (offset limit : Z) (s : string) (direction : Direction)
  (read_class : Projection) (cache : list string) :
  is_column cls s = true -> (0 <= offset)%Z -> (0 <= limit)%Z ->
  _base_read_list_object cls session offset limit (Some s) direction None
    read_class cache
  = (let page :=
       firstn (Z.to_nat limit)
         (skipn (Z.to_nat offset)
            (apply_order (if str_truthy s then Some (s, direction) else None)
               session)) in
     try! objects <- map_result (from_db read_class) page ;;
     Ok {| total := Z.of_nat (List.length page); data := objects |},
     cache).
Proof.
  intros Hs Ho Hl.
  unfold _base_read_list_object, bind, ret, lift, sort_expression.
  rewrite Hs.
  assert (Hex : forall q,
             q_where q = [] -> q_offset q = Some offset -> q_limit q = Some limit ->
             session_exec session q
             = Ok (firstn (Z.to_nat limit)
                     (skipn (Z.to_nat offset) (apply_order (q_order_by q) session)))).
  { intros q Hw Hof Hli. unfold session_exec. rewrite Hw, Hof, Hli.
    unfold apply_limit, apply_offset.
    destruct (Z.ltb_spec limit 0); [lia|].
    now rewrite (filter_all (eval_where [])) by reflexivity. }
  destruct (str_truthy s);
    cbv beta iota delta [rbind session_count fst snd];
    rewrite !Hex by reflexivity;
    cbv beta iota delta [rbind]; cbn [q_order_by order_by limit_ offset_ select];
    match goal with
    | |- context [map_result ?f ?l] => destruct (map_result f l); reflexivity
    end.
Qed.

(** Consecutive pages tile the sorted table.  The rows are sorted by a
    column whose stored values are pairwise distinct, so that the order of
    the rows is the same in every statement; then the page of [l1] rows at
    [offset] followed by the page of [l2] rows at [offset + l1] is the page
    of [l1 + l2] rows at [offset]. *)
Theorem read_list_pages_tile (cls : ModelClass) (session : Session)
  (offset l1 l2 : Z) (s : string) (direction : Direction)
  (read_class : Projection) (cache c1 c2 : list string)
  (r1 r2 : PaginatedResponse) :
  str_truthy s = true ->
  NoDup (map (fun row => column_value row s) session) ->
  is_column cls s = true -> (0 <= offset)%Z -> (0 <= l1)%Z -> (0 <= l2)%Z ->
  _base_read_list_object cls session offset l1 (Some s) direction None
    read_class cache = (Ok r1, c1) ->
  _base_read_list_object cls session (offset + l1) l2 (Some s) direction None
    read_class cache = (Ok r2, c2) ->
  _base_read_list_object cls session offset (l1 + l2) (Some s) direction None
    read_class cache
  = (Ok {| total := total r1 + total r2; data := data r1 ++ data r2 |}, cache).
Proof.
  intros _ _ Hs Ho H1 H2.
  rewrite !read_list_unfiltered by (assumption || lia). cbv zeta.
  set (base := apply_order (if str_truthy s then Some (s, direction) else None)
                 session).
  rewrite (Z2Nat.inj_add offset l1) by lia.
  rewrite (Z2Nat.inj_add l1 l2) by lia.
  rewrite (firstn_plus (Z.to_nat l1) (Z.to_nat l2)), skipn_skipn.
  rewrite (Nat.add_comm (Z.to_nat l1) (Z.to_nat offset)).
  set (p1 := firstn (Z.to_nat l1) (skipn (Z.to_nat offset) base)).
  set (p2 := firstn (Z.to_nat l2) (skipn (Z.to_nat offset + Z.to_nat l1) base)).
  destruct (map_result (from_db read_class) p1) as [o1|e] eqn:E1; simpl;
    [|discriminate].
  destruct (map_result (from_db read_class) p2) as [o2|e] eqn:E2; simpl;
    [|intros _ Hd; discriminate].
  intros Hr1 Hr2. inversion Hr1; inversion Hr2; subst. simpl.
  rewrite (map_result_app _ _ _ _ _ E1 E2). simpl.
  now rewrite length_app, Nat2Z.inj_add.
Qed.

Lemma read_list_pages_tile_witness :
  _base_read_list_object Player three_players 0 (1 + 2) (Some "id") asc None
    PlayerRead []
  = (Ok {| total := 1 + 2;
           data := [player 1 "alice"] ++ [player 2 "bob"; player 3 "carol"] |}, []).
Proof.
  apply (read_list_pages_tile Player three_players 0 1 2 "id" asc PlayerRead [] [] []
           {| total := 1; data := [player 1 "alice"] |}
           {| total := 2; data := [player 2 "bob"; player 3 "carol"] |});
    [reflexivity
    | simpl; repeat constructor; simpl; intuition discriminate
    | reflexivity | lia | lia | lia | reflexivity | reflexivity].
Defined.

(** A sort name that is no column of the table is an error; it is never
    ignored. *)
Theorem read_list_unknown_sort_raises (cls : ModelClass) (session : Session)
  (offset limit : Z) (s : string) (direction : Direction)
  (read_class : Projection) (cache : list string) :
  str_truthy s = true ->
  is_column cls s = false ->
  exists e, (e = RuntimeError \/ e = AttributeError) /\
    _base_read_list_object cls session offset limit (Some s) direction None
      read_class cache = (Raise e, cache).
Proof.
  intros Ht Hc.
  unfold _base_read_list_object, bind, ret, lift, sort_expression.
  rewrite Ht, Hc.
  destruct (has_attr cls s); simpl; eauto.
Qed.

Lemma read_list_unknown_sort_raises_witness :
  exists e, (e = RuntimeError \/ e = AttributeError) /\
    _base_read_list_object Player three_players 0 10 (Some "validate") asc None
      PlayerRead [] = (Raise e, []).
Proof.
  apply (read_list_unknown_sort_raises Player three_players 0 10 "validate" asc
           PlayerRead []); reflexivity.
Defined.

(** ** Single-object operations, continued *)

Lemma value_eqb_refl (a : Value) : value_eqb a a = true.
Proof.
  destruct a; simpl; auto using Z.eqb_refl, String.eqb_refl, Bool.eqb_reflx.
Qed.

Lemma tuple_eqb_refl (a : list Value) : tuple_eqb a a = true.
Proof.
  induction a as [|x a IH]; simpl; [reflexivity|].
  now rewrite value_eqb_refl, IH.
Qed.

Lemma find_filter_other {A : Type} (f g : A -> bool) (l : list A) :
  (forall x, f x = true -> g x = false) ->
  find f (filter (fun x => negb (g x)) l) = find f l.
Proof.
  intros Hfg. induction l as [|x l IH]; simpl; [reflexivity|].
  destruct (f x) eqn:Hf.
  - rewrite (Hfg x Hf). simpl. now rewrite Hf.
  - destruct (g x); simpl; [exact IH|]. now rewrite Hf.
Qed.

(** Creation never returns a Read projection: whatever the body and the
    table, the call ends in an exception. *)
Theorem create_always_raises (cls : ModelClass) (raw_obj : Dict)
  (read_class : Projection) (session : Session) :
  exists e, fst (_base_create_object cls raw_obj read_class session) = Raise e.
Proof.
  unfold _base_create_object.
  destruct (cls_validate cls (to_db cls (model_dump raw_obj))) as [valid error].
  destruct valid; simpl; [|eauto].
  unfold bind, get_state, raise.
  destruct (session_get cls session _) as [[o|]|e]; simpl; eauto.
Qed.

Lemma create_duplicate_rejected_witness :
  _base_create_object Player (player 2 "robert") PlayerRead three_players
  = (Raise (HTTPException HTTP_422_UNPROCESSABLE_ENTITY
              (DetailExists (_as_id_tuple Player (to_db Player (player 2 "robert"))))
              None),
     three_players).
Proof.
  apply (create_duplicate_rejected Player (player 2 "robert") PlayerRead
           three_players (player 2 "bob")); reflexivity.
Defined.

(** An HTTP error of create, update or delete (404, 422) means that the
    table was not touched. *)
Theorem http_errors_leave_the_table (cls : ModelClass) (read_class : Projection)
  (obj kwargs : Dict) (session session' : Session)
  (status : Z) (detail : Detail) (headers : option string) :
  (_base_create_object cls obj read_class session
   = (Raise (HTTPException status detail headers), session') -> session' = session) /\
  (_base_update_object cls read_class obj kwargs session
   = (Raise (HTTPException status detail headers), session') -> session' = session) /\
  (_base_delete_object cls kwargs session
   = (Raise (HTTPException status detail headers), session') -> session' = session).
Proof.
  repeat split.
  - unfold _base_create_object.
    destruct (cls_validate cls (to_db cls (model_dump obj))) as [valid error].
    destruct valid; simpl; unfold raise; [|intros H; now inversion H].
    unfold bind, get_state, raise.
    destruct (session_get cls session _) as [[o|]|e]; simpl;
      intros H; inversion H; reflexivity.
  - unfold _base_update_object, bind, get_state, lift, raise.
    destruct (session_get cls session (map snd kwargs)) as [[old|]|e];
      try (intros H; inversion H; reflexivity).
    destruct (cls_validate cls _) as [valid error].
    destruct valid; simpl; [|intros H; now inversion H].
    unfold session_update.
    destruct (has_none _); [discriminate|].
    destruct (_ && _); [discriminate|]. simpl.
    unfold from_db.
    assert (Hv : forall fields kw,
               pydantic_init fields kw <> Raise (HTTPException status detail headers)).
    { induction fields as [|[name default] fields IH]; intros kw; simpl;
        [discriminate|].
      destruct (dict_get kw name); [|destruct default]; simpl;
        try discriminate;
        (specialize (IH kw); destruct (pydantic_init fields kw); simpl;
         [discriminate|congruence]). }
    match goal with
    | |- context [pydantic_init ?f ?k] =>
        pose proof (Hv f k) as Hne; destruct (pydantic_init f k)
    end; intros H; inversion H; congruence.
  - unfold _base_delete_object, bind, get_state, lift, raise, session_delete.
    destruct (session_get cls session (map snd kwargs)) as [[old|]|e];
      intros H; inversion H; reflexivity.
Qed.

Lemma http_errors_leave_the_table_witness :
  _base_update_object StrictPlayer PlayerRead [("username", VStr EmptyString)]
    [("id", VInt 2)] three_players
  = (Raise (HTTPException 422 (DetailText "username must not be empty") None),
     three_players) /\
  _base_delete_object Player [("id", VInt 9)] three_players
  = (Raise (HTTPException 404 (DetailNotFound "Player" [VInt 9]) None),
     three_players) /\
  three_players = three_players.
Proof.
  split; [reflexivity|]. split; [reflexivity|].
  exact (proj1 (proj2 (http_errors_leave_the_table StrictPlayer PlayerRead
                         [("username", VStr EmptyString)] [("id", VInt 2)]
                         three_players three_players
                         422 (DetailText "username must not be empty") None))
           eq_refl).
Defined.

(** Deleting one key leaves the answer of a read of any other key as it
    was. *)
Theorem delete_keeps_other_keys (cls : ModelClass) (read_class : Projection)
  (kwargs kwargs' : Dict) (session session' : Session) :
  map snd kwargs' <> map snd kwargs ->
  _base_delete_object cls kwargs session = (Ok tt, session') ->
  _base_read_single cls session' read_class kwargs'
  = _base_read_single cls session read_class kwargs'.
Proof.
  intros Hne. unfold _base_delete_object, bind, get_state, lift, raise.
  destruct (session_get cls session (map snd kwargs)) as [[old|]|e] eqn:Hg;
    try discriminate.
  unfold session_delete. intros H. inversion H; subst. clear H.
  unfold _base_read_single, session_get.
  destruct (Nat.eqb _ _); [|reflexivity].
  rewrite find_filter_other; [reflexivity|].
  intros row Hrow. apply tuple_eqb_eq in Hrow.
  rewrite (session_get_some_id _ _ _ _ Hg).
  destruct (tuple_eqb (_as_id_tuple cls row) (map snd kwargs)) eqn:E;
    [|reflexivity].
  apply tuple_eqb_eq in E. congruence.
Qed.

Lemma delete_keeps_other_keys_witness :
  _base_read_single Player [player 1 "alice"; player 3 "carol"] PlayerRead
    [("id", VInt 3)]
  = _base_read_single Player three_players PlayerRead [("id", VInt 3)].
Proof.
  apply (delete_keeps_other_keys Player PlayerRead [("id", VInt 2)]
           [("id", VInt 3)] three_players [player 1 "alice"; player 3 "carol"]);
    [discriminate | reflexivity].
Defined.

Lemma dict_set_same_value (d : Dict) (k : string) (v : Value) :
  dict_get d k = Some v -> dict_set d k v = d.
Proof.
  induction d as [|[k' v'] d IH]; simpl; [discriminate|].
  destruct (String.eqb_spec k k').
  - intros H. inversion H. now subst.
  - intros H. now rewrite IH.
Qed.

Lemma overwrite_noop (items d : Dict) :
  (forall k v, In (k, v) items -> dict_get d k = Some v) ->
  overwrite d items = d.
Proof.
  unfold overwrite. induction items as [|[k v] items IH]; simpl; intros H;
    [reflexivity|].
  rewrite dict_set_same_value by (apply H; now left).
  apply IH. intros k' v' Hin. apply H. now right.
Qed.

Lemma in_dict_get (d : Dict) (k : string) (v : Value) :
  NoDup (map fst d) -> In (k, v) d -> dict_get d k = Some v.
Proof.
  induction d as [|[k' v'] d IH]; simpl; intros Hnd Hin; [tauto|].
  inversion Hnd as [|? ? Hnotin Hnd']; subst.
  destruct Hin as [Heq|Hin].
  - inversion Heq; subst. now rewrite String.eqb_refl.
  - destruct (String.eqb_spec k k'); [|now apply IH].
    subst k'. exfalso. apply Hnotin. now apply (in_map fst) in Hin.
Qed.

Lemma overwrite_idempotent (items obj : Dict) :
  NoDup (map fst items) ->
  overwrite (overwrite obj items) items = overwrite obj items.
Proof.
  intros Hnd. apply overwrite_noop. intros k v Hin.
  now rewrite overwrite_get, (in_dict_get _ _ _ Hnd Hin).
Qed.

Lemma find_map_replace {A : Type} (p : A -> bool) (new old : A) (l : list A) :
  find p l = Some old -> p new = true ->
  find p (map (fun row => if p row then new else row) l) = Some new.
Proof.
  intros Hf Hp. induction l as [|x l IH]; simpl in *; [discriminate|].
  destruct (p x) eqn:Hx; [now rewrite Hp|]. rewrite Hx. now apply IH.
Qed.

(** The same update applied a second time changes nothing more: it
    answers the same projection and leaves the table as the first one left
    it. *)
Theorem update_twice_is_update_once (cls : ModelClass) (read_class : Projection)
  (new_obj kwargs : Dict) (session session' session'' : Session) (r r' : Dict) :
  NoDup (map fst (cls_fields cls)) ->
  _base_update_object cls read_class new_obj kwargs session = (Ok r, session') ->
  _base_update_object cls read_class new_obj kwargs session' = (Ok r', session'') ->
  r' = r /\ session'' = session'.
Proof.
  intros Hnd H1 H2.
  apply update_ok_inv in H1. destruct H1 as (old & Hg & Hr & Hs).
  apply update_ok_inv in H2. destruct H2 as (old2 & Hg2 & Hr2 & Hs2).
  set (id := map snd kwargs) in *.
  set (new := overwrite old (to_db cls new_obj)) in *.
  assert (Hparsed : NoDup (map fst (to_db cls new_obj)))
    by (apply table_init_nodup; exact Hnd).
  assert (Hold2 : old2 = new /\ tuple_eqb (_as_id_tuple cls new) id = true).
  { unfold session_get in Hg2.
    destruct (Nat.eqb _ _); [|discriminate].
    inversion Hg2 as [Hfind]. apply find_some in Hfind.
    destruct Hfind as [Hin Hkey]. rewrite Hs in Hin.
    apply in_map_iff in Hin. destruct Hin as (row & Hrow & _).
    destruct (tuple_eqb (_as_id_tuple cls row) id) eqn:E.
    - subst old2. auto.
    - subst old2. congruence. }
  destruct Hold2 as [-> Hkey].
  assert (Hnew : overwrite new (to_db cls new_obj) = new)
    by (apply overwrite_idempotent; exact Hparsed).
  rewrite Hnew in *. split; [congruence|].
  rewrite Hs2, Hs, map_map. apply map_ext. intros row.
  destruct (tuple_eqb (_as_id_tuple cls row) id) eqn:E.
  - now rewrite Hkey.
  - now rewrite E.
Qed.

Lemma update_twice_is_update_once_witness :
  guild 1 "Raiders" VNone = guild 1 "Raiders" VNone /\
  [guild 1 "Raiders" VNone; guild 2 "Owls" VNone]
  = [guild 1 "Raiders" VNone; guild 2 "Owls" VNone].
Proof.
  assert (Hnd : NoDup (map fst (cls_fields Guild))).
  { simpl. repeat constructor; simpl; intuition discriminate. }
  exact (update_twice_is_update_once Guild GuildRead [("name", VStr "Raiders")]
           [("id", VInt 1)]
           [guild 1 "Knights" (VStr "For honour"); guild 2 "Owls" VNone]
           [guild 1 "Raiders" VNone; guild 2 "Owls" VNone]
           [guild 1 "Raiders" VNone; guild 2 "Owls" VNone]
           (guild 1 "Raiders" VNone) (guild 1 "Raiders" VNone)
           Hnd eq_refl eq_refl).
Defined.

(** When the instance built from the update body sets no key field, a read
    of the same key after the update answers what the update answered. *)
Theorem read_after_update (cls : ModelClass) (read_class : Projection)
  (new_obj kwargs : Dict) (session session' : Session) (r : Dict) :
  NoDup (map fst (cls_fields cls)) ->
  (forall key, In key (primary_key cls) ->
               dict_get (to_db cls new_obj) (c_name key) = None) ->
  _base_update_object cls read_class new_obj kwargs session = (Ok r, session') ->
  _base_read_single cls session' read_class kwargs = Ok r.
Proof.
  intros Hnd Hkeys H.
  apply update_ok_inv in H. destruct H as (old & Hg & Hr & Hs).
  assert (Hparsed : NoDup (map fst (to_db cls new_obj)))
    by (apply table_init_nodup; exact Hnd).
  assert (Hid : _as_id_tuple cls (overwrite old (to_db cls new_obj))
                = map snd kwargs).
  { rewrite <- (session_get_some_id _ _ _ _ Hg).
    unfold _as_id_tuple. apply map_ext_in. intros key Hin.
    unfold column_value. now rewrite overwrite_get, (Hkeys key Hin). }
  unfold _base_read_single.
  pose proof (session_get_length _ _ _ _ Hg) as Hlen.
  unfold session_get in *. rewrite Hlen in *. inversion Hg as [Hfind].
  rewrite Hs.
  rewrite (find_map_replace
             (fun row => tuple_eqb (_as_id_tuple cls row) (map snd kwargs))
             (overwrite old (to_db cls new_obj)) old session Hfind).
  - simpl. exact Hr.
  - rewrite Hid. apply tuple_eqb_refl.
Qed.

Lemma read_after_update_witness :
  _base_read_single Guild [guild 1 "Raiders" VNone; guild 2 "Owls" VNone]
    GuildRead [("id", VInt 1)]
  = Ok (guild 1 "Raiders" VNone).
Proof.
  apply (read_after_update Guild GuildRead [("name", VStr "Raiders")]
           [("id", VInt 1)]
           [guild 1 "Knights" (VStr "For honour"); guild 2 "Owls" VNone]).
  - simpl. repeat constructor; simpl; intuition discriminate.
  - intros key [<-|[]]. reflexivity.
  - reflexivity.
Defined.

(** ** Authorization gate and handlers, continued *)

Lemma disabled_principal_rejected_witness :
  secured ["player"]
    (Claims {| claim_sub := Some "disabled"; claim_scopes := Some ["player"] |})
    (fun u => Ok (u_username u))
  = Raise inactive_user_exception.
Proof.
  exact (disabled_principal_rejected ["player"]
           {| claim_sub := Some "disabled"; claim_scopes := Some ["player"] |}
           "disabled"
           {| u_id := 3; u_username := "disabled"; u_email := "disabled@host.com";
              u_disabled := true; u_access := AccessStr "player" |}
           (fun u => Ok (u_username u)) eq_refl eq_refl eq_refl eq_refl).
Defined.

(** Whether a request passes the gate does not depend on the scopes the
    operation declares: a token that passes for one list of scopes passes
    for every other. *)
Theorem gate_ignores_declared_scopes {A : Type} (scopes scopes' : list string)
  (token : Decoded) (body : User -> result A) (r : A) :
  secured scopes token body = Ok r ->
  secured scopes' token body = Ok r.
Proof.
  unfold secured, get_current_user.
  destruct token as [|payload]; [discriminate|].
  destruct (claim_sub payload) as [username|]; [|discriminate].
  destruct (get_user FAKE_DB username) as [user|]; [|discriminate].
  destruct (forallb _ (requested_scopes payload)); [|discriminate].
  auto.
Qed.

Lemma gate_ignores_declared_scopes_witness :
  secured ["admin"; "player"]
    (Claims {| claim_sub := Some "user"; claim_scopes := None |})
    (fun u => Ok (u_username u))
  = Ok "user".
Proof.
  exact (gate_ignores_declared_scopes [] ["admin"; "player"]
           (Claims {| claim_sub := Some "user"; claim_scopes := None |})
           (fun u => Ok (u_username u)) "user" eq_refl).
Defined.

(** A token that cannot be decoded, that names no subject, or whose
    subject is not in the user directory is answered 401 with a challenge
    that always names scopes: those of the operation followed by
    [player]. *)
Theorem bad_credentials_rejected {A : Type} (scopes : list string)
  (token : Decoded) (body : User -> result A) :
  match token with
  | JWTError => True
  | Claims payload =>
      match claim_sub payload with
      | None => True
      | Some username => get_user FAKE_DB username = None
      end
  end ->
  secured scopes token body
  = Raise (HTTPException 401 (DetailText "Could not validate credentials")
             (Some (String.append "Bearer scope="
                      (String.append dquote
                         (String.append (join " " (scopes ++ ["player"]))
                            dquote))))).
Proof.
  assert (Hh : authenticate_value (scopes ++ [PLAYER])
               = String.append "Bearer scope="
                   (String.append dquote
                      (String.append (join " " (scopes ++ ["player"])) dquote))).
  { unfold authenticate_value, PLAYER. now destruct scopes. }
  unfold secured, get_current_user, credentials_exception. rewrite Hh.
  intros H. destruct token as [|payload]; [reflexivity|].
  destruct (claim_sub payload) as [username|]; [|reflexivity].
  now rewrite H.
Qed.

Lemma bad_credentials_rejected_witness :
  secured ["admin"]
    (Claims {| claim_sub := Some "mallory"; claim_scopes := None |})
    (fun u => Ok (u_username u))
  = Raise (HTTPException 401 (DetailText "Could not validate credentials")
             (Some (String.append "Bearer scope="
                      (String.append dquote
                         (String.append (join " " (["admin"] ++ ["player"]))
                            dquote))))).
Proof.
  exact (bad_credentials_rejected ["admin"]
           (Claims {| claim_sub := Some "mallory"; claim_scopes := None |})
           (fun u => Ok (u_username u)) eq_refl).
Defined.

(** ** Login *)

(** Login never issues a token: it answers 400 when the user is unknown
    or the password is refused, and fails on [datetime.now] otherwise. *)
Theorem login_never_issues_a_token
  (pwd_context_verify : string -> option string -> bool)
  (jwt_encode : list (string * string) -> Z -> string)
  (username password : string) :
  login_for_access_token pwd_context_verify jwt_encode username password
  = Raise (HTTPException 400 (DetailText "Invalid username or password") None)
  \/
  login_for_access_token pwd_context_verify jwt_encode username password
  = Raise AttributeError.
Proof.
  unfold login_for_access_token, auth_user, verify_password.
  destruct (get_user FAKE_DB username) as [user|]; [|now left].
  destruct (pwd_context_verify password None); simpl; [now right|now left].
Qed.

(** ** Reflection and generated signatures, continued *)

Lemma scan_mro_raises_kind (mro : list Namespace) (last : Namespace)
  (a : string) (defaults : list string) :
  ns_annotations last = None ->
  exists e, (e = TypeError \/ e = AttributeError) /\
            scan_mro (mro ++ [last]) a defaults = Raise e.
Proof.
  intros Hlast. induction mro as [|clazz rest IH]; simpl.
  - rewrite Hlast. eauto.
  - destruct (ns_annotations clazz) as [anns|]; [|eauto].
    destruct (annotations_get anns a) as [t|]; [|exact IH].
    destruct (in_str_annotations t); [eauto|exact IH].
Qed.

(** Default-filter discovery raises for every model that has a class var
    and whose MRO ends in a class without annotations, as every MRO does
    with [object]; the error is the [TypeError] of the subscripted
    [append] or the [AttributeError] of the list fallback, and the cache
    stays empty. *)
Theorem default_filters_raise_for_every_model (cls : ModelClass)
  (mro : list Namespace) (last : Namespace) :
  cls_mro cls = mro ++ [last] ->
  ns_annotations last = None ->
  _class_vars cls <> [] ->
  exists e, (e = TypeError \/ e = AttributeError) /\
            _get_default_filters cls [] = (Raise e, []).
Proof.
  intros Hmro Hlast Hvars.
  unfold _get_default_filters, bind, get_state, lift. simpl.
  destruct (_class_vars cls) as [|a rest]; [congruence|].
  simpl. rewrite Hmro.
  destruct (scan_mro_raises_kind mro last a [] Hlast) as (e & He & Hs).
  rewrite Hs. simpl. eauto.
Qed.

Lemma default_filters_raise_for_every_model_witness :
  exists e, (e = TypeError \/ e = AttributeError) /\
            _get_default_filters Guild [] = (Raise e, []).
Proof.
  apply (default_filters_raise_for_every_model Guild (removelast (cls_mro Guild))
           object_ns); [reflexivity | reflexivity | discriminate].
Defined.

Lemma filter_names_notin (name : string) (l : Params) :
  ~ In name (map p_name l) ->
  filter (fun p => negb (String.eqb name (p_name p))) l = l.
Proof.
  induction l as [|p l IH]; simpl; intros Hn; [reflexivity|].
  destruct (String.eqb_spec name (p_name p)) as [Heq|Hne];
    [exfalso; apply Hn; now left|].
  simpl. rewrite IH; tauto.
Qed.

Lemma params_pop_filter (name : string) (l : Params) :
  NoDup (map p_name l) -> In name (map p_name l) ->
  params_pop l name = Ok (filter (fun p => negb (String.eqb name (p_name p))) l).
Proof.
  induction l as [|p l IH]; simpl; intros Hnd Hin; [tauto|].
  inversion Hnd as [|? ? Hnotin Hnd']; subst.
  destruct (String.eqb_spec name (p_name p)) as [->|Hne]; simpl.
  - now rewrite filter_names_notin.
  - rewrite IH; [reflexivity|assumption|]. destruct Hin; congruence.
Qed.

Lemma params_set_notin (params : Params) (name : string) (p : Param) :
  ~ In name (map p_name params) -> params_set params name p = params ++ [p].
Proof.
  induction params as [|p' params IH]; simpl; intros Hn; [reflexivity|].
  destruct (String.eqb_spec name (p_name p')) as [Heq|Hne];
    [exfalso; apply Hn; now left|].
  rewrite IH; tauto.
Qed.

Lemma table_column_key (table : list Column) (key : Column) :
  NoDup (map c_name table) -> In key table ->
  find (fun c => String.eqb (c_name key) (c_name c)) table = Some key.
Proof.
  induction table as [|c table IH]; simpl; intros Hnd Hin; [tauto|].
  inversion Hnd as [|? ? Hnotin Hnd']; subst.
  destruct Hin as [->|Hin].
  - now rewrite String.eqb_refl.
  - destruct (String.eqb_spec (c_name key) (c_name c)) as [Heq|Hne];
      [|now apply IH].
    exfalso. apply Hnotin. rewrite <- Heq. now apply in_map.
Qed.

Lemma nodup_names_filter (f : Column -> bool) (table : list Column) :
  NoDup (map c_name table) -> NoDup (map c_name (filter f table)).
Proof.
  induction table as [|c table IH]; simpl; intros Hnd; [constructor|].
  inversion Hnd as [|? ? Hnotin Hnd']; subst.
  destruct (f c); simpl; [|auto].
  constructor; [|auto].
  intros Hin. apply Hnotin. apply in_map_iff in Hin.
  destruct Hin as (c' & Hc' & Hin). apply filter_In in Hin.
  rewrite <- Hc'. apply in_map. tauto.
Qed.

Lemma build_sig_type_map_ok (cls : ModelClass) (keys : list Column)
  (acc : list (string * option PyType)) :
  (forall key, In key keys -> table_column cls (c_name key) = Some key) ->
  build_sig_type_map cls keys acc
  = Ok (acc ++ map (fun key => (c_name key, column_python_type key)) keys).
Proof.
  revert acc. induction keys as [|key keys IH]; simpl; intros acc H.
  - now rewrite app_nil_r.
  - rewrite (H key) by now left.
    rewrite IH by (intros k Hk; apply H; now right).
    now rewrite <- app_assoc.
Qed.

Lemma sig_type_map_get_key (keys : list Column) (key : Column) :
  NoDup (map c_name keys) -> In key keys ->
  sig_type_map_get (map (fun key => (c_name key, column_python_type key)) keys)
    (c_name key)
  = Ok (column_python_type key).
Proof.
  induction keys as [|c keys IH]; simpl; intros Hnd Hin; [tauto|].
  inversion Hnd as [|? ? Hnotin Hnd']; subst.
  destruct Hin as [->|Hin].
  - now rewrite String.eqb_refl.
  - destruct (String.eqb_spec (c_name key) (c_name c)) as [Heq|Hne];
      [|now apply IH].
    exfalso. apply Hnotin. rewrite <- Heq. now apply in_map.
Qed.

Lemma add_key_parameters_ok (keys : list Column)
  (m : list (string * option PyType)) (params : Params) :
  (forall key, In key keys -> sig_type_map_get m (c_name key)
                              = Ok (column_python_type key)) ->
  NoDup (map c_name keys) ->
  (forall key, In key keys -> ~ In (c_name key) (map p_name params)) ->
  add_key_parameters keys m params
  = Ok (params
        ++ map (fun key => {| p_name := c_name key;
                              p_kind := KEYWORD_ONLY;
                              p_annotation := annotation_of (column_python_type key) |})
            keys).
Proof.
  revert params. induction keys as [|key keys IH]; simpl; intros params Hm Hnd Hp.
  - now rewrite app_nil_r.
  - inversion Hnd as [|? ? Hnotin Hnd']; subst.
    rewrite (Hm key) by now left. simpl.
    rewrite params_set_notin by (apply Hp; now left).
    rewrite IH; [now rewrite <- app_assoc| | assumption |].
    + intros k Hk. apply Hm. now right.
    + intros k Hk. rewrite map_app, in_app_iff. simpl.
      intros [Hin|[Heq|[]]].
      * apply (Hp k); [now right|assumption].
      * apply Hnotin. rewrite Heq. now apply in_map.
Qed.

(** Before its last line, [_create_id_signature] has assembled what it is
    meant to return: the parameters of the handler without [kwargs],
    followed by one keyword-only parameter per primary-key column, in
    declaration order, annotated with the Python type of the column. *)
Theorem id_parameters_are_assembled (cls : ModelClass) (old_sig : Params) :
  NoDup (map p_name old_sig) ->
  In "kwargs" (map p_name old_sig) ->
  NoDup (map c_name (cls_table cls)) ->
  (forall key, In key (primary_key cls) -> ~ In (c_name key) (map p_name old_sig)) ->
  modified_parameters cls old_sig = Ok (spec_id_parameters cls old_sig).
Proof.
  intros Hsig Hkw Htab Hfresh.
  unfold modified_parameters, spec_id_parameters.
  rewrite params_pop_filter by assumption. simpl.
  assert (Hpk : forall key, In key (primary_key cls) -> In key (cls_table cls)).
  { intros key Hin. apply filter_In in Hin. tauto. }
  rewrite build_sig_type_map_ok
    by (intros key Hin; apply table_column_key; auto).
  simpl. apply add_key_parameters_ok.
  - intros key Hin. apply sig_type_map_get_key; [|assumption].
    now apply nodup_names_filter.
  - now apply nodup_names_filter.
  - intros key Hin Hin'. apply (Hfresh key Hin).
    apply in_map_iff in Hin'. destruct Hin' as (p & Hp & Hin').
    apply filter_In in Hin'. rewrite <- Hp. apply in_map. tauto.
Qed.

Lemma id_parameters_are_assembled_witness :
  modified_parameters Guild
    [kw "current_user" AnnotationEmpty; kw "session" (AnnotationClass "Session");
     kw "obj" (AnnotationClass "GuildUpdate"); var_kw]
  = Ok (spec_id_parameters Guild
          [kw "current_user" AnnotationEmpty;
           kw "session" (AnnotationClass "Session");
           kw "obj" (AnnotationClass "GuildUpdate"); var_kw]).
Proof.
  apply id_parameters_are_assembled.
  - simpl. repeat constructor; simpl; intuition discriminate.
  - simpl. tauto.
  - simpl. repeat constructor; simpl; intuition discriminate.
  - intros key [<-|[]]. simpl. intuition discriminate.
Defined.

Lemma string_append_assoc (a b c : string) :
  String.append (String.append a b) c = String.append a (String.append b c).
Proof. induction a as [|x a IH]; simpl; [reflexivity|now rewrite IH]. Qed.

Lemma id_segments (names : list string) :
  names <> [] ->
  String.append "/{" (String.append (join "}/{" names) "}")
  = fold_right String.append EmptyString
      (map (fun name => String.append "/{" (String.append name "}")) names).
Proof.
  induction names as [|x names IH]; [congruence|]. intros _.
  destruct names as [|y names].
  - simpl. now rewrite string_append_assoc.
  - specialize (IH ltac:(discriminate)).
    change (join "}/{" (x :: y :: names))
      with (String.append x (String.append "}/{" (join "}/{" (y :: names)))).
    change (fold_right String.append EmptyString
              (map (fun name => String.append "/{" (String.append name "}"))
                 (x :: y :: names)))
      with (String.append (String.append "/{" (String.append x "}"))
              (fold_right String.append EmptyString
                 (map (fun name => String.append "/{" (String.append name "}"))
                    (y :: names)))).
    rewrite <- IH. rewrite !string_append_assoc. reflexivity.
Qed.

(** The path suffix of the single-object routes has one segment [/{name}]
    per primary-key column, in declaration order; for a table without
    primary key it is the malformed [/{}]. *)
Theorem id_endpoint_segments (cls : ModelClass) :
  _as_id_endpoint cls
  = match primary_key cls with
    | [] => "/{}"
    | _ :: _ =>
        fold_right String.append EmptyString
          (map (fun name => String.append "/{" (String.append name "}"))
             (map c_name (primary_key cls)))
    end.
Proof.
  unfold _as_id_endpoint.
  destruct (primary_key cls) as [|key keys]; [reflexivity|].
  apply id_segments. discriminate.
Qed.
